(** * github_resolver/send_pull_request.py: patch application and record loading

    A shallow embedding of [load_resolver_output] and [apply_patch]
    together with the parts of Python's text I/O, [str] and [os.path]
    they rely on.

    Conventions of the embedding.
    - File contents and Python [str] values are lists of 8-bit characters
      ([text]).  Reading a file as text goes through the host's codec
      [decode], which may raise; writing text is the identity, which is
      exact for ASCII text (the bytes CR and LF are the characters CR and
      LF in every codec Python uses as a default).
    - The host is described by [os_linesep], the value of [os.linesep];
      [os.path] is [posixpath].
    - The third-party package [whatthepatch] is not part of the program: its
      two entry points [parse_patch] (as the list of file sections it
      yields) and [apply_diff] are parameters of [apply_patch].
      [Hunks.apply_diff] is a model of the hunk applier written from the
      specification, used to run concrete patches.
    - [initialize_repo], [make_commit] and [send_pull_request] run on a
      [machine]: the outside answers their calls ([os.path.exists],
      [shutil], [subprocess.run], [requests]) through the class [System],
      and every call is recorded with its answer in [events]. *)

From Stdlib Require Import Ascii String List Bool ZArith QArith Lia DecimalString.
From stdpp Require Import base option list strings gmap.
Import ListNotations.

Local Open Scope list_scope.
Local Open Scope bool_scope.

(** ** Characters and text *)

Definition text := list ascii.

(** [T "abc"] is the text of a string literal. *)
Definition T (s : string) : text := list_ascii_of_string s.

Definition chr_LF : ascii := "010"%char.
Definition chr_CR : ascii := "013"%char.

(** The two values the program gives to its variable [newline] besides
    [None]: ['\n'] and ['\r\n']. *)
Definition s_LF : text := [chr_LF].
Definition s_CRLF : text := [chr_CR; chr_LF].

(** [s.startswith(p)]. *)
Fixpoint startswith (p s : text) : bool :=
  match p, s with
  | [], _ => true
  | _ :: _, [] => false
  | a :: p', b :: s' => Ascii.eqb a b && startswith p' s'
  end.

(** [needle in hay] on [bytes] (and on [str]): substring search. *)
Fixpoint contains (needle hay : text) : bool :=
  startswith needle hay
  || match hay with
     | [] => false
     | _ :: hay' => contains needle hay'
     end.

(** The declarative reading of "contains the sequence anywhere". *)
Definition occurs_in (needle hay : text) : Prop :=
  exists pre post, hay = pre ++ needle ++ post.

(** ** The line-ending detector (apply_patch, lines 41-47) *)

(** The three values of the variable [newline]. *)
Inductive LineEndingStyle := CRLF | LF | NoStyle.

(** The Python value behind each style: ['\r\n'], ['\n'], [None]. *)
Definition newline_value (nl : LineEndingStyle) : option text :=
  match nl with
  | CRLF => Some s_CRLF
  | LF => Some s_LF
  | NoStyle => None
  end.

Definition detect_newline (original_content : text) : LineEndingStyle :=
  if contains s_CRLF original_content then CRLF
  else if contains s_LF original_content then LF
  else NoStyle.


(** ** Python [str] methods used by the program *)

(** [c in chars], for the character sets given to [strip] and [lstrip]. *)
Definition in_chars (chars : text) (c : ascii) : bool :=
  existsb (Ascii.eqb c) chars.

(** [str.isspace] on the ASCII range: TAB, LF, VT, FF, CR, the four
    separators FS GS RS US, and SPACE. *)
Definition is_whitespace (c : ascii) : bool :=
  let n := nat_of_ascii c in
  (Nat.leb 9 n && Nat.leb n 13) || (Nat.leb 28 n && Nat.leb n 32).

(** What [strip(chars)] removes: whitespace when [chars] is [None], the
    characters of [chars] (a set, not a prefix or suffix) otherwise. *)
Definition strip_pred (chars : option text) : ascii -> bool :=
  match chars with
  | None => is_whitespace
  | Some cs => in_chars cs
  end.

Fixpoint dropwhile (p : ascii -> bool) (s : text) : text :=
  match s with
  | [] => []
  | c :: s' => if p c then dropwhile p s' else s
  end.

Definition lstrip (chars : option text) (s : text) : text :=
  dropwhile (strip_pred chars) s.

Definition rstrip (chars : option text) (s : text) : text :=
  rev (dropwhile (strip_pred chars) (rev s)).

Definition strip (chars : option text) (s : text) : text :=
  rstrip chars (lstrip chars s).

Definition endswith (suffix s : text) : bool :=
  startswith (rev suffix) (rev s).

(** Truth value of an [Optional[str]]: [None] and [''] are false. *)
Definition truthy (s : option text) : bool :=
  match s with
  | Some (_ :: _) => true
  | _ => false
  end.

Definition text_eqb (a b : text) : bool := bool_decide (a = b).

(** [os.path.join(a, b)] of [posixpath]. *)
Definition os_path_join (a b : text) : text :=
  if startswith (T "/") b then b
  else if negb (truthy (Some a)) || endswith (T "/") a then a ++ b
  else a ++ T "/" ++ b.

(** ** Python text-mode files *)

(** Reading with [newline=None]: universal newlines, every CR LF, CR and
    LF is handed to the program as LF. *)
Fixpoint universal_newlines (s : text) : text :=
  match s with
  | [] => []
  | c :: s' =>
      if Ascii.eqb c chr_CR then
        chr_LF :: match s' with
                  | d :: s'' =>
                      if Ascii.eqb d chr_LF then universal_newlines s''
                      else universal_newlines s'
                  | [] => []
                  end
      else c :: universal_newlines s'
  end.

(** [readlines()] when lines end at LF only; each line keeps its
    terminator, the last line may have none. *)
Fixpoint readlines_lf (s : text) : list text :=
  match s with
  | [] => []
  | c :: s' =>
      if Ascii.eqb c chr_LF then [c] :: readlines_lf s'
      else match readlines_lf s' with
           | [] => [[c]]
           | l :: ls => (c :: l) :: ls
           end
  end.

(** [readlines()] when lines end at CR LF only ([newline='\r\n']). *)
Fixpoint readlines_crlf (s : text) : list text :=
  match s with
  | [] => []
  | c :: s' =>
      match s' with
      | d :: s'' =>
          if Ascii.eqb c chr_CR && Ascii.eqb d chr_LF
          then [c; d] :: readlines_crlf s''
          else match readlines_crlf s' with
               | [] => [[c]]
               | l :: ls => (c :: l) :: ls
               end
      | [] => [[c]]
      end
  end.

(** [open(path, 'r', newline=newline).readlines()] on a file holding
    [content]. *)
Definition readlines (newline : LineEndingStyle) (content : text) : list text :=
  match newline with
  | NoStyle => readlines_lf (universal_newlines content)
  | LF => readlines_lf content
  | CRLF => readlines_crlf content
  end.

Section Host.

(** [os.linesep] of the machine the program runs on. *)
Variable os_linesep : text.

(** [TextIOWrapper._writenl]: [newline or os.linesep]. *)
Definition writenl (newline : LineEndingStyle) : text :=
  match newline_value newline with
  | Some (c :: nl) => c :: nl
  | _ => os_linesep
  end.

(** [f.write(s)] on a file opened with [newline=newline]: every LF of
    [s] is replaced by [writenl] unless [writenl] is LF itself. *)
Definition write_translate (newline : LineEndingStyle) (s : text) : text :=
  if text_eqb (writenl newline) s_LF then s
  else flat_map (fun c => if Ascii.eqb c chr_LF then writenl newline else [c]) s.

(** [print(line, file=f)]: writes [line], then the end ['\n']. *)
Definition print_line (newline : LineEndingStyle) (line : text) : text :=
  write_translate newline line ++ write_translate newline s_LF.

(** The content of the file after
    [for line in new_content: print(line, file=f)]. *)
Definition written_content (newline : LineEndingStyle) (new_content : list text)
  : text :=
  concat (map (print_line newline) new_content).

End Host.

(** ** Exceptions and the program's effects *)

Inductive exn :=
| FileNotFoundError (path : text)
| OSError (path : text)
| UnicodeDecodeError
| MalformedHunkError
| JSONDecodeError
| KeyError (key : text)
| TypeError
| ValidationError
| ValueError (msg : text).

(** A computation that returns or raises. *)
Definition result (A : Type) : Type := exn + A.

Definition bindE {A B} (m : result A) (k : A -> result B) : result B :=
  match m with
  | inl e => inl e
  | inr a => k a
  end.

(** The file system as [open] sees it.  [fs_read] is
    [open(path, 'rb').read()].  [fs_open_w] is [open(path, 'w')]: it
    creates the file or empties it, and when it raises the store is as
    before.  [fs_write] is what follows on the opened file, the prints and
    the close: when it raises, the store it returns holds what reached the
    file. *)
Class FileSystem (Store : Type) := {
  fs_read : Store -> text -> result text;
  fs_open_w : Store -> text -> result Store;
  fs_write : Store -> text -> text -> result unit * Store
}.

(** A flat store in which every path can be written: a directory tree
    all of whose directories exist. *)
#[export] Instance MapFS : FileSystem (gmap text text) := {
  fs_read m path :=
    match m !! path with
    | Some content => inr content
    | None => inl (FileNotFoundError path)
    end;
  fs_open_w m path := inr (<[path := []]> m);
  fs_write m path content := (inr tt, <[path := content]> m)
}.

(** What the program can change: the files and what it has printed. *)
Record world (Store : Type) := World { files : Store; stdout : list text }.
Arguments World {Store} _ _.
Arguments files {Store} _.
Arguments stdout {Store} _.

(** Statements: the world is kept when an exception is raised. *)
Definition M (Store A : Type) : Type := world Store -> result A * world Store.

Definition ret {Store A} (a : A) : M Store A := fun w => (inr a, w).

Definition raise {Store A} (e : exn) : M Store A := fun w => (inl e, w).

Definition bindM {Store A B} (m : M Store A) (k : A -> M Store B) : M Store B :=
  fun w =>
    match m w with
    | (inl e, w') => (inl e, w')
    | (inr a, w') => k a w'
    end.

Definition lift {Store A} (r : result A) : M Store A := fun w => (r, w).

Declare Scope py_scope.
Delimit Scope py_scope with py.
Notation "x <- m ;; k" := (bindM m (fun x => k))
  (at level 100, m at next level, right associativity) : py_scope.
Notation "m ;; k" := (bindM m (fun _ => k))
  (at level 100, right associativity) : py_scope.

Declare Scope result_scope.
Delimit Scope result_scope with result.
Notation "x <- m ;; k" := (bindE m (fun x => k))
  (at level 100, m at next level, right associativity) : result_scope.

(** [print(s)]. *)
Definition print {Store} (s : text) : M Store unit :=
  fun w => (inr tt, World (files w) (stdout w ++ [s])).

(** [open(path, 'rb').read()], and the same bytes through a text file. *)
Definition read_file `{FileSystem Store} (path : text) : M Store text :=
  fun w => (fs_read (files w) path, w).

(** [with open(path, 'w', ...) as f:] followed by the prints of
    [content]. *)
Definition write_file `{FileSystem Store} (path content : text) : M Store unit :=
  fun w =>
    match fs_open_w (files w) path with
    | inl e => (inl e, w)
    | inr opened =>
        let (r, fs') := fs_write opened path content in
        (r, World fs' (stdout w))
    end.

(** The body of a [for] loop run over a list, stopping at the first
    exception. *)
Fixpoint for_each {Store A} (body : A -> M Store unit) (l : list A) : M Store unit :=
  match l with
  | [] => ret tt
  | x :: l' => (body x ;; for_each body l')%py
  end.

(** ** The records of whatthepatch *)

(** Modelled from the spec: the diff records that [whatthepatch] hands to
    the program (section 3: DiffRecord and Hunk); the package is not in the
    sources.  A line of a hunk with its tag. *)
Inductive tagged_line :=
| ContextLine (s : text)
| AddedLine (s : text)
| RemovedLine (s : text).

(** Modelled from the spec: a hunk, its header numbers and its lines. *)
Record Hunk := {
  old_start : Z;
  old_count : Z;
  new_start : Z;
  new_count : Z;
  lines : list tagged_line
}.

(** Modelled from the spec: the two fields of [diff.header] the program
    reads, each a string or [None]. *)
Record header := { old_path : option text; new_path : option text }.

(** Modelled from the spec: a file section, [diff.header] and its hunks. *)
Record diff := { diff_header : header; hunks : list Hunk }.

(** ** apply_patch *)

Definition warning_message : text := T "Warning: Could not determine file to patch".
Definition success_message : text := T "Patch applied successfully".
Definition dev_null : text := T "/dev/null".

(** [diff.header.old_path.lstrip('b/')], joined to [repo_dir]: lines 29-34. *)
Definition resolve_path (repo_dir path : text) : text :=
  os_path_join repo_dir (lstrip (Some (T "b/")) path).

Definition resolve_old_path (repo_dir : text) (d : diff) : option text :=
  match old_path (diff_header d) with
  | Some p =>
      if truthy (Some p) && negb (text_eqb p dev_null)
      then Some (resolve_path repo_dir p)
      else None
  | None => None
  end.

Definition resolve_new_path (repo_dir : text) (p : text) : text :=
  resolve_path repo_dir p.

(** Lines 49-50: the lines of the old file as given to the hunk applier. *)
Definition split_content_of (newline : LineEndingStyle) (content : text)
  : list text :=
  map (strip (newline_value newline)) (readlines newline content).

Section ApplyPatch.

Context {Store : Type} `{FileSystem Store}.

Variable os_linesep : text.

(** The codec of text files on the host: the characters of a file's
    bytes, or the [UnicodeDecodeError] that reading them raises. *)
Variable decode : text -> result text.

(** [whatthepatch.parse_patch] and [whatthepatch.apply_diff]. *)
Variable parse_patch : text -> list diff.
Variable apply_diff : diff -> list text -> result (list text).

(** Lines 36-53: the line ending and the original lines. *)
Definition read_original (old_path : option text)
  : M Store (LineEndingStyle * list text) :=
  match old_path with
  | Some p =>
      if truthy (Some p) then
        (original_content <- read_file p ;;
         let newline := detect_newline original_content in
         raw <- read_file p ;;
         content <- lift (decode raw) ;;
         ret (newline, split_content_of newline content))%py
      else ret (LF, [])
  | None => ret (LF, [])
  end.

(** Lines 57-60. *)
Definition write_new_content (new_path : text) (newline : LineEndingStyle)
    (new_content : list text) : M Store unit :=
  write_file new_path (written_content os_linesep newline new_content).

(** The body of the loop, lines 25-60. *)
Definition apply_section (repo_dir : text) (d : diff) : M Store unit :=
  match new_path (diff_header d) with
  | Some np =>
      if truthy (Some np) then
        (let old_path := resolve_old_path repo_dir d in
         let new_path := resolve_new_path repo_dir np in
         orig <- read_original old_path ;;
         new_content <- lift (apply_diff d (snd orig)) ;;
         write_new_content new_path (fst orig) new_content)%py
      else print warning_message
  | None => print warning_message
  end.

Definition apply_patch (repo_dir patch : text) : M Store unit :=
  let diffs := parse_patch patch in
  (for_each (apply_section repo_dir) diffs ;;
   print success_message)%py.

End ApplyPatch.

(** ** The hunk applier *)

(** Modelled from the spec: the hunk applier of section 4.3, which the
    program calls as [whatthepatch.apply_diff]; the package is not in the
    sources. *)
Module Hunks.

(** Where the applier stands: the lines produced so far, the original
    lines not yet consumed, and the 0-based index of the first of them. *)
Record cursor_state := {
  output : list text;
  remaining : list text;
  cursor : Z
}.

Definition start (original : list text) : cursor_state :=
  {| output := []; remaining := original; cursor := 0 |}.

(** Copy the untouched original lines strictly before [offset]. *)
Definition copy_before (offset : Z) (st : cursor_state) : result cursor_state :=
  let n := Z.to_nat (offset - cursor st) in
  if Nat.leb n (length (remaining st)) then
    inr {| output := output st ++ firstn n (remaining st);
           remaining := skipn n (remaining st);
           cursor := cursor st + Z.of_nat n |}
  else inl MalformedHunkError.

(** Consume the next original line, which has to be [s]. *)
Definition expect (s : text) (st : cursor_state) : result text :=
  match remaining st with
  | l :: _ => if text_eqb l s then inr l else inl MalformedHunkError
  | [] => inl MalformedHunkError
  end.

Definition walk_line (tl : tagged_line) (st : cursor_state)
  : result cursor_state :=
  match tl with
  | ContextLine s =>
      (l <- expect s st ;;
       inr {| output := output st ++ [l];
              remaining := tail (remaining st);
              cursor := cursor st + 1 |})%result
  | AddedLine s =>
      inr {| output := output st ++ [s];
             remaining := remaining st;
             cursor := cursor st |}
  | RemovedLine s =>
      (_ <- expect s st ;;
       inr {| output := output st;
              remaining := tail (remaining st);
              cursor := cursor st + 1 |})%result
  end.

Fixpoint walk (ls : list tagged_line) (st : cursor_state) : result cursor_state :=
  match ls with
  | [] => inr st
  | tl :: ls' => (st' <- walk_line tl st ;; walk ls' st')%result
  end.

(** Header line numbers are 1-based; the offset is 0-based. *)
Definition apply_hunk (h : Hunk) (st : cursor_state) : result cursor_state :=
  (st' <- copy_before (old_start h - 1) st ;; walk (lines h) st')%result.

Fixpoint apply_hunks (hs : list Hunk) (st : cursor_state) : result cursor_state :=
  match hs with
  | [] => inr st
  | h :: hs' => (st' <- apply_hunk h st ;; apply_hunks hs' st')%result
  end.

(** Modelled from the spec: [whatthepatch.apply_diff], the hunk applier
    of section 4.3, which is a third-party package and not in the
    sources.  A cursor runs over the original lines; each hunk first
    copies the lines before its offset, then walks its tagged lines
    (Context and Removed lines have to match the original, section 8);
    what remains after the last hunk is copied. *)
Definition apply_diff (d : diff) (original : list text) : result (list text) :=
  (st <- apply_hunks (hunks d) (start original) ;;
   inr (output st ++ remaining st))%result.

End Hunks.

(** ** load_resolver_output *)

#[local] Unset Elimination Schemes.

(** The values [json.loads] returns.  A float is its exact rational
    value, or [None] for NaN and the infinities. *)
Inductive json :=
| JNull
| JBool (b : bool)
| JInt (z : Z)
| JFloat (q : option Q)
| JStr (s : text)
| JArr (items : list json)
| JObj (members : list (text * json)).

#[local] Set Elimination Schemes.

(** [data[key]] for a string key; [members] holds each key of the
    [dict] once. *)
Definition subscript (data : json) (key : text) : result json :=
  match data with
  | JObj members =>
      match find (fun kv => text_eqb (fst kv) key) members with
      | Some kv => inr (snd kv)
      | None => inl (KeyError key)
      end
  | _ => inl TypeError
  end.


(** [str(n)] for an [int]. *)
Definition str_of_int (n : Z) : text := T (NilZero.string_of_int (Z.to_int n)).


Section LoadResolverOutput.

Context {Store : Type} `{FileSystem Store}.

(** [ResolverOutput] and its [model_validate], [json.loads]. *)
Variable ResolverOutput : Type.
Variable model_validate : json -> result ResolverOutput.
Variable json_loads : text -> result json.




End LoadResolverOutput.

(** ** Files made of terminated lines *)

(** The text of the lines [ls], each followed by [ending]. *)
Definition join_lines (ending : text) (ls : list text) : text :=
  concat (map (fun l => l ++ ending) ls).

(** The characters of a line ending given as a style. *)
Definition line_ending (newline : LineEndingStyle) : text :=
  match newline_value newline with
  | Some e => e
  | None => []
  end.

(** A line that holds neither CR nor LF. *)
Definition clean (l : text) : Prop :=
  Forall (fun c => c <> chr_CR /\ c <> chr_LF) l.

(** ** Concrete patches *)

Module Scenario.

Definition repo : text := T "repo".

Definition hello_world : text := T "hello" ++ s_LF ++ T "world" ++ s_LF.

(** Creation of [newfile.txt] with the lines [hello] and [world]. *)
Definition d_create : diff :=
  {| diff_header := {| old_path := Some dev_null;
                       new_path := Some (T "newfile.txt") |};
     hunks := [ {| old_start := 0; old_count := 0;
                   new_start := 1; new_count := 2;
                   lines := [AddedLine (T "hello"); AddedLine (T "world")] |} ] |}.

(** A section whose new path could not be determined. *)
Definition d_unresolved : diff :=
  {| diff_header := {| old_path := Some (T "x.txt"); new_path := None |};
     hunks := [] |}.

(** A change of [a.txt] whose context line is not in the file. *)
Definition d_mismatch : diff :=
  {| diff_header := {| old_path := Some (T "a.txt");
                       new_path := Some (T "a.txt") |};
     hunks := [ {| old_start := 1; old_count := 1;
                   new_start := 1; new_count := 2;
                   lines := [ContextLine (T "y"); AddedLine (T "z")] |} ] |}.

(** The diff from a file holding ["a\n"] to a file holding ["b"], whose
    only line has no line ending. *)
Definition d_replace : diff :=
  {| diff_header := {| old_path := Some (T "f.txt");
                       new_path := Some (T "f.txt") |};
     hunks := [ {| old_start := 1; old_count := 1;
                   new_start := 1; new_count := 1;
                   lines := [RemovedLine (T "a"); AddedLine (T "b")] |} ] |}.

(** A change of [gone.txt], a file that is not in the repository. *)
Definition d_missing : diff :=
  {| diff_header := {| old_path := Some (T "gone.txt");
                       new_path := Some (T "gone.txt") |};
     hunks := [ {| old_start := 1; old_count := 1;
                   new_start := 1; new_count := 1;
                   lines := [RemovedLine (T "x"); AddedLine (T "y")] |} ] |}.

(** A repository holding [a.txt] with the line [x], and one holding
    [f.txt] with the line [a]. *)
Definition fs_a : gmap text text := {[ T "repo/a.txt" := T "x" ++ s_LF ]}.

(** A parser that knows a few patches by name. *)
Definition parse (patch : text) : list diff :=
  if text_eqb patch (T "skip+create") then [d_unresolved; d_create]
  else if text_eqb patch (T "create") then [d_create]
  else if text_eqb patch (T "mismatch+create") then [d_mismatch; d_create]
  else if text_eqb patch (T "missing+create") then [d_missing; d_create]
  else if text_eqb patch (T "create+mismatch+create") then
    [d_create; d_mismatch; d_create]
  else if text_eqb patch (T "replace") then [d_replace]
  else [].

End Scenario.

(** ** Lines of a record file *)

Section Lines.

Variable json_loads : text -> result json.
Variable issue_number : Z.



End Lines.

Module Records.

Definition record_of (n : Z) : json :=
  JObj [(T "issue", JObj [(T "number", JInt n)]); (T "base_commit", JStr (T "abc"))].

(** A loader that knows two lines. *)
Definition loads (line : text) : result json :=
  if text_eqb line (T "one" ++ s_LF) then inr (record_of 1)
  else if text_eqb line (T "two" ++ s_LF) then inr (record_of 2)
  else inl JSONDecodeError.



End Records.

(** ** The machine around the program: directories, git and the GitHub API *)

(** What [subprocess.run(cmd, shell=True, capture_output=True, text=True)]
    returns; a command that exits with a non-zero code raises nothing. *)
Record CompletedProcess := {
  returncode : Z;
  proc_stdout : text;
  proc_stderr : text
}.

(** The parts of a [requests.Response] the program reads: [status_code]
    and what [response.json()] returns or raises. *)
Record Response := { status_code : Z; response_json : result json }.

(** The exceptions of the second half of the program; [Raised] carries
    the built-in ones of the first half. *)
Inductive error :=
| Raised (e : exn)
| RuntimeError (msg : text)
| HTTPError (status : Z)
| RequestException.

(** The calls the program makes to the outside, with the answer of each. *)
Inductive event :=
| EvExists (path : text) (answer : bool)
| EvRmtree (path : text)
| EvCopytree (src dst : text)
| EvRun (cmd : text) (completed : CompletedProcess)
| EvGet (url : text) (headers : list (text * text)) (answer : option Response)
| EvPost (url : text) (headers : list (text * text)) (data : json)
    (answer : option Response).

(** The outside as the program sees it: [os.path.exists],
    [shutil.rmtree], [shutil.copytree], [subprocess.run], [requests.get]
    and [requests.post].  The two [shutil] functions answer [None] when
    they raise an [OSError], the two requests when no response arrives. *)
Class System (Sys : Type) := {
  os_path_exists : Sys -> text -> bool;
  shutil_rmtree : Sys -> text -> option Sys;
  shutil_copytree : Sys -> text -> text -> option Sys;
  subprocess_run : Sys -> text -> CompletedProcess * Sys;
  requests_get : Sys -> text -> list (text * text) -> option Response * Sys;
  requests_post :
    Sys -> text -> list (text * text) -> json -> option Response * Sys
}.

(** The outside, the calls made so far and what has been printed. *)
Record machine (Sys : Type) :=
  Machine { system : Sys; events : list event; printed : list text }.
Arguments Machine {Sys} _ _ _.
Arguments system {Sys} _.
Arguments events {Sys} _.
Arguments printed {Sys} _.

Definition P (Sys A : Type) : Type := machine Sys -> (error + A) * machine Sys.

Definition retP {Sys A} (a : A) : P Sys A := fun m => (inr a, m).

Definition throw {Sys A} (e : error) : P Sys A := fun m => (inl e, m).

Definition bindP {Sys A B} (c : P Sys A) (k : A -> P Sys B) : P Sys B :=
  fun m =>
    match c m with
    | (inl e, m') => (inl e, m')
    | (inr a, m') => k a m'
    end.

(** A pure step that returns or raises one of the built-in exceptions. *)
Definition liftP {Sys A} (r : result A) : P Sys A :=
  fun m => (match r with inl e => inl (Raised e) | inr a => inr a end, m).

(** What a request gives the program: the response, or an exception
    of [requests]. *)
Definition arrived (answer : option Response) : error + Response :=
  match answer with
  | Some response => inr response
  | None => inl RequestException
  end.

(** A pure step that returns or raises. *)
Definition liftE {Sys A} (r : error + A) : P Sys A := fun m => (r, m).

Declare Scope proc_scope.
Delimit Scope proc_scope with proc.
Notation "x <- m ;; k" := (bindP m (fun x => k))
  (at level 100, m at next level, right associativity) : proc_scope.
Notation "m ;; k" := (bindP m (fun _ => k))
  (at level 100, right associativity) : proc_scope.

Definition say {Sys} (s : text) : P Sys unit :=
  fun m => (inr tt, Machine (system m) (events m) (printed m ++ [s])).

Definition path_exists `{System Sys} (path : text) : P Sys bool :=
  fun m =>
    let answer := os_path_exists (system m) path in
    (inr answer,
     Machine (system m) (events m ++ [EvExists path answer]) (printed m)).

Definition rmtree `{System Sys} (path : text) : P Sys unit :=
  fun m =>
    let seen := events m ++ [EvRmtree path] in
    match shutil_rmtree (system m) path with
    | None => (inl (Raised (OSError path)), Machine (system m) seen (printed m))
    | Some s => (inr tt, Machine s seen (printed m))
    end.

Definition copytree `{System Sys} (src dst : text) : P Sys unit :=
  fun m =>
    let seen := events m ++ [EvCopytree src dst] in
    match shutil_copytree (system m) src dst with
    | None => (inl (Raised (OSError dst)), Machine (system m) seen (printed m))
    | Some s => (inr tt, Machine s seen (printed m))
    end.

Definition run `{System Sys} (cmd : text) : P Sys CompletedProcess :=
  fun m =>
    let (completed, s) := subprocess_run (system m) cmd in
    (inr completed, Machine s (events m ++ [EvRun cmd completed]) (printed m)).

Definition get `{System Sys} (url : text) (headers : list (text * text))
  : P Sys Response :=
  fun m =>
    let (answer, s) := requests_get (system m) url headers in
    (arrived answer,
     Machine s (events m ++ [EvGet url headers answer]) (printed m)).

Definition post `{System Sys} (url : text) (headers : list (text * text))
    (data : json) : P Sys Response :=
  fun m =>
    let (answer, s) := requests_post (system m) url headers data in
    (arrived answer,
     Machine s (events m ++ [EvPost url headers data answer]) (printed m)).

(** [response.raise_for_status()]: client and server errors raise. *)
Definition raise_for_status (response : Response) : error + unit :=
  if Z.leb 400 (status_code response) && Z.ltb (status_code response) 600
  then inl (HTTPError (status_code response))
  else inr tt.

(** Modelled from the spec: the fields of [GithubIssue] the program
    reads; its declaration (github_resolver/github_issue.py) is not in the
    sources. *)
Record GithubIssue := {
  owner : text;
  repo : text;
  number : Z;
  title : text
}.

(** ** initialize_repo, make_commit, send_pull_request *)

(** [os.path.join(output_dir, "repo")] and
    [os.path.join(output_dir, "patches", f"issue_{issue_number}")]. *)
Definition src_dir_of (output_dir : text) : text :=
  os_path_join output_dir (T "repo").

Definition dest_dir_of (output_dir : text) (issue_number : Z) : text :=
  os_path_join (os_path_join output_dir (T "patches"))
    (T "issue_" ++ str_of_int issue_number).

Definition checkout_command (dest_dir base_commit : text) : text :=
  T "git -C " ++ dest_dir ++ T " checkout " ++ base_commit.

Definition add_command (repo_dir : text) : text :=
  T "git -C " ++ repo_dir ++ T " add .".

Definition commit_command (repo_dir : text) (issue : GithubIssue) : text :=
  T "git -C " ++ repo_dir ++ T " commit -m 'Fix issue #"
  ++ str_of_int (number issue) ++ T ": " ++ title issue ++ T "'".

Definition request_headers (github_token : text) : list (text * text) :=
  [(T "Authorization", T "token " ++ github_token);
   (T "Accept", T "application/vnd.github.v3+json")].

Definition base_url_of (github_issue : GithubIssue) : text :=
  T "https://api.github.com/repos/" ++ owner github_issue ++ T "/"
  ++ repo github_issue.

Definition branch_name_of (github_issue : GithubIssue) : text :=
  T "fix-issue-" ++ str_of_int (number github_issue).

Definition branch_command (patch_dir branch_name : text) : text :=
  T "git -C " ++ patch_dir ++ T " checkout -b " ++ branch_name.

Definition push_command_of (github_issue : GithubIssue)
    (github_token github_username patch_dir : text) : text :=
  T "git -C " ++ patch_dir ++ T " push "
  ++ T "https://" ++ github_username ++ T ":" ++ github_token ++ T "@github.com/"
  ++ owner github_issue ++ T "/" ++ repo github_issue ++ T ".git "
  ++ branch_name_of github_issue.

Definition pr_title_of (github_issue : GithubIssue) : text :=
  T "Fix issue #" ++ str_of_int (number github_issue) ++ T ": "
  ++ title github_issue.

Definition pr_body_of (github_issue : GithubIssue) : text :=
  T "This pull request addresses issue #" ++ str_of_int (number github_issue)
  ++ T "." ++ s_LF ++ s_LF ++ T "Automatic fix generated by OpenHands.".

(** The [data] dictionary of lines 163-168. *)
Definition pr_data_of (github_issue : GithubIssue) (default_branch : json) : json :=
  JObj [(T "title", JStr (pr_title_of github_issue));
        (T "body", JStr (pr_body_of github_issue));
        (T "head", JStr (branch_name_of github_issue));
        (T "base", default_branch)].

Definition permission_message : text :=
  T "Failed to create pull request due to missing permissions. "
  ++ T "Make sure that the provided token has push permissions for the repository.".

Arguments src_dir_of : simpl never.
Arguments dest_dir_of : simpl never.
Arguments checkout_command : simpl never.
Arguments add_command : simpl never.
Arguments commit_command : simpl never.
Arguments request_headers : simpl never.
Arguments base_url_of : simpl never.
Arguments branch_name_of : simpl never.
Arguments branch_command : simpl never.
Arguments push_command_of : simpl never.
Arguments pr_data_of : simpl never.
Arguments permission_message : simpl never.
Arguments raise_for_status : simpl never.

Section Pipeline.

Context {Sys : Type} `{System Sys}.

(** [str(value)] as an f-string formats a value that [json] returned. *)
Variable py_str : json -> text.

(** Lines 65-91. *)
Definition initialize_repo (output_dir : text) (issue_number : Z)
    (base_commit : option text) : P Sys text :=
  let src_dir := src_dir_of output_dir in
  let dest_dir := dest_dir_of output_dir issue_number in
  (src_exists <- path_exists src_dir ;;
   if negb src_exists then
     throw (Raised (ValueError
              (T "Source directory " ++ src_dir ++ T " does not exist.")))
   else
     dest_exists <- path_exists dest_dir ;;
     (if dest_exists then rmtree dest_dir else retP tt) ;;
     copytree src_dir dest_dir ;;
     say (T "Copied repository to " ++ dest_dir) ;;
     match base_commit with
     | Some base =>
         if truthy (Some base) then
           result <- run (checkout_command dest_dir base) ;;
           if negb (Z.eqb (returncode result) 0) then
             say (T "Error checking out commit: " ++ proc_stderr result) ;;
             throw (RuntimeError (T "Failed to check out commit"))
           else retP dest_dir
         else retP dest_dir
     | None => retP dest_dir
     end)%proc.

(** Lines 94-110. *)
Definition make_commit (repo_dir : text) (issue : GithubIssue) : P Sys unit :=
  (result <- run (add_command repo_dir) ;;
   if negb (Z.eqb (returncode result) 0) then
     say (T "Error adding files: " ++ proc_stderr result) ;;
     throw (RuntimeError (T "Failed to add files to git"))
   else
     result <- run (commit_command repo_dir issue) ;;
     if negb (Z.eqb (returncode result) 0) then
       say (T "Error committing changes: " ++ proc_stderr result) ;;
       throw (RuntimeError (T "Failed to commit changes"))
     else retP tt)%proc.

(** Lines 113-180. *)
Definition send_pull_request (github_issue : GithubIssue)
    (github_token github_username patch_dir : text) : P Sys json :=
  let headers := request_headers github_token in
  let base_url := base_url_of github_issue in
  let branch_name := branch_name_of github_issue in
  (response <- get base_url headers ;;
   liftE (raise_for_status response) ;;
   body <- liftP (response_json response) ;;
   default_branch <- liftP (subscript body (T "default_branch")) ;;
   result <- run (branch_command patch_dir branch_name) ;;
   if negb (Z.eqb (returncode result) 0) then
     say (T "Error creating new branch: " ++ proc_stderr result) ;;
     throw (RuntimeError (T "Failed to create a new branch " ++ branch_name
                          ++ T " in " ++ patch_dir ++ T ":"))
   else
     let push_command :=
       push_command_of github_issue github_token github_username patch_dir in
     result <- run push_command ;;
     if negb (Z.eqb (returncode result) 0) then
       say (T "Error pushing changes" ++ s_LF ++ push_command ++ s_LF
            ++ proc_stderr result) ;;
       throw (RuntimeError (T "Failed to push changes to the remote repository"))
     else
       let data := pr_data_of github_issue default_branch in
       response <- post (base_url ++ T "/pulls") headers data ;;
       if Z.eqb (status_code response) 403 then
         throw (RuntimeError permission_message)
       else
         liftE (raise_for_status response) ;;
         pr_data <- liftP (response_json response) ;;
         shown <- liftP (subscript pr_data (T "html_url")) ;;
         say (T "Pull request created: " ++ py_str shown) ;;
         liftP (subscript pr_data (T "html_url")))%proc.

End Pipeline.

(** ** A scripted machine *)

Module Script.

(** The directories that exist, the exit codes of the commands to come
    and the answers of the API. *)
Record host := {
  present : list text;
  codes : list Z;
  get_answer : option Response;
  post_answer : option Response
}.

Definition completed (code : Z) : CompletedProcess :=
  {| returncode := code; proc_stdout := []; proc_stderr := T "stderr" |}.

#[global] Instance scripted : System host := {
  os_path_exists h path := existsb (text_eqb path) (present h);
  shutil_rmtree h path :=
    Some {| present := List.filter (fun p => negb (text_eqb path p)) (present h);
           codes := codes h;
           get_answer := get_answer h; post_answer := post_answer h |};
  shutil_copytree h src dst :=
    Some {| present := dst :: present h; codes := codes h;
           get_answer := get_answer h; post_answer := post_answer h |};
  subprocess_run h cmd :=
    match codes h with
    | code :: rest =>
        (completed code,
         {| present := present h; codes := rest;
            get_answer := get_answer h; post_answer := post_answer h |})
    | [] => (completed 0, h)
    end;
  requests_get h url headers := (get_answer h, h);
  requests_post h url headers data := (post_answer h, h)
}.

Definition issue7 : GithubIssue :=
  {| owner := T "acme"; repo := T "widgets"; number := 7; title := T "Crash" |}.

Definition repo_answer : Response :=
  {| status_code := 200;
     response_json := inr (JObj [(T "default_branch", JStr (T "main"))]) |}.

Definition created_answer : Response :=
  {| status_code := 201;
     response_json :=
       inr (JObj [(T "html_url", JStr (T "https://github.com/acme/widgets/pull/1"))]) |}.

Definition forbidden_answer : Response :=
  {| status_code := 403; response_json := inr (JObj []) |}.

(** A machine on which [out/repo] exists and the commands exit with
    [codes]. *)
Definition boot (codes : list Z) (post_answer : option Response) : machine host :=
  Machine {| present := [T "out/repo"]; codes := codes;
             get_answer := Some repo_answer; post_answer := post_answer |} [] [].

(** A machine without any directory. *)
Definition bare : machine host :=
  Machine {| present := []; codes := [];
             get_answer := None; post_answer := None |} [] [].

Definition show (v : json) : text :=
  match v with
  | JStr s => s
  | _ => T "?"
  end.

End Script.

(** ** What it means that sections are applied *)

Section Applied.

Context {Store : Type} `{FileSystem Store}.
Variable os_linesep : text.
Variable decode : text -> result text.
Variable apply_diff : diff -> list text -> result (list text).
Variable repo_dir : text.



End Applied.


(** ** Unified diffs between two sequences of lines *)





(** ** Files as lines *)


Definition lines_of (ls : list text) (tail : text) : list text :=
  ls ++ match tail with
        | [] => []
        | _ :: _ => [tail]
        end.



Section OldFiles.

Context {Store : Type} `{FileSystem Store}.
Variable decode : text -> result text.


End OldFiles.

(** ** A codec and a disk for concrete runs *)

(** The ASCII codec: bytes below 128 are their characters, any other
    byte raises.  On ASCII bytes every codec Python takes as a default
    agrees with it. *)
Definition ascii_decode (raw : text) : result text :=
  if forallb (fun c => Nat.ltb (nat_of_ascii c) 128) raw then inr raw
  else inl UnicodeDecodeError.

(** [posixpath.dirname]. *)
Definition dirname (p : text) : text :=
  let head := rev (dropwhile (fun c => negb (Ascii.eqb c "/")) (rev p)) in
  if truthy (Some head) && negb (forallb (Ascii.eqb "/") head)
  then rstrip (Some (T "/")) head
  else head.

(** A disk with directories: the directories that exist, the files with
    their content, and the size of the largest file it takes.  Paths are
    taken as they are written. *)
Record disk := Disk {
  folders : gset text;
  documents : gmap text text;
  room : nat
}.

(** Opening a file for writing raises when the path is a directory and
    when its directory does not exist; writing raises when the content
    does not fit, and the file then holds what did fit. *)
#[global] Instance DirFS : FileSystem disk := {
  fs_read d path :=
    match documents d !! path with
    | Some content => inr content
    | None => inl (FileNotFoundError path)
    end;
  fs_open_w d path :=
    if bool_decide (path ∈ folders d) then inl (OSError path)
    else if negb (truthy (Some (dirname path)))
            || bool_decide (dirname path ∈ folders d)
    then inr (Disk (folders d) (<[path := []]> (documents d)) (room d))
    else inl (FileNotFoundError path);
  fs_write d path content :=
    if Nat.leb (length content) (room d)
    then (inr tt, Disk (folders d) (<[path := content]> (documents d)) (room d))
    else (inl (OSError path),
          Disk (folders d) (<[path := firstn (room d) content]> (documents d))
            (room d))
}.

Module OnDisk.

(** The repository [repo] with [a.txt], whose only line is [x]. *)
Definition repo_a (room : nat) : disk :=
  Disk {[ T "repo" ]} {[ T "repo/a.txt" := T "x" ++ s_LF ]} room.

(** The same with a directory [repo/dev]. *)
Definition repo_dev : disk :=
  Disk {[ T "repo"; T "repo/dev" ]} {[ T "repo/a.txt" := T "x" ++ s_LF ]} 100.

(** The change of [a.txt] from the lines [x] to the lines [x], [z],
    and the parser of a patch that holds it after a skipped section. *)
Definition d_append : diff :=
  {| diff_header := {| old_path := Some (T "a.txt");
                       new_path := Some (T "a.txt") |};
     hunks := [ {| old_start := 1; old_count := 1;
                   new_start := 1; new_count := 2;
                   lines := [ContextLine (T "x"); AddedLine (T "z")] |} ] |}.

Definition parse (patch : text) : list diff :=
  if text_eqb patch (T "skip+append+create") then
    [Scenario.d_unresolved; d_append; Scenario.d_create]
  else if text_eqb patch (T "append+create+append") then
    [d_append; Scenario.d_create; d_append]
  else [].

End OnDisk.

Module Lines.




End Lines.

(** ** More concrete patches *)

Module More.

(** The deletion of [a.txt], whose only line is [x]. *)
Definition d_delete : diff :=
  {| diff_header := {| old_path := Some (T "a.txt");
                       new_path := Some dev_null |};
     hunks := [ {| old_start := 1; old_count := 1;
                   new_start := 0; new_count := 0;
                   lines := [RemovedLine (T "x")] |} ] |}.

(** A patch of three sections, two of them without a usable new path. *)
Definition parse (patch : text) : list diff :=
  if text_eqb patch (T "skip+create+skip") then
    [Scenario.d_unresolved; Scenario.d_create; Scenario.d_unresolved]
  else [].

(** A loader that knows a third line, a record without [issue]. *)
Definition loads (line : text) : result json :=
  if text_eqb line (T "bad" ++ s_LF) then inr (JObj [(T "id", JInt 3)])
  else Records.loads line.


End More.

(** * Properties *)

(** ** Substring search: soundness and completeness *)

Lemma startswith_spec (p s : text) :
  startswith p s = true <-> exists post, s = p ++ post.
Proof.
  revert s. induction p as [|a p IH]; intros s; simpl.
  - split; [intros _; by exists s | done].
  - destruct s as [|b s].
    + split; [done | intros [post H]; discriminate H].
    + rewrite andb_true_iff, Ascii.eqb_eq, IH. split.
      * intros [-> [post ->]]. by exists post.
      * intros [post H]. injection H as -> ->. split; [done | by exists post].
Qed.

Lemma contains_spec (needle hay : text) :
  contains needle hay = true <-> occurs_in needle hay.
Proof.
  unfold occurs_in. induction hay as [|c hay IH].
  - simpl. rewrite orb_false_r, startswith_spec. split.
    + intros [post H]. exists [], post. done.
    + intros [pre [post H]]. destruct pre as [|x pre]; [|discriminate H].
      exists post. done.
  - cbn [contains]. rewrite orb_true_iff, startswith_spec, IH. split.
    + intros [[post H] | [pre [post H]]].
      * exists [], post. done.
      * exists (c :: pre), post. by rewrite H.
    + intros [pre [post H]]. destruct pre as [|x pre].
      * left. by exists post.
      * right. injection H as -> H. by exists pre, post.
Qed.

Lemma contains_false_spec (needle hay : text) :
  contains needle hay = false <-> ~ occurs_in needle hay.
Proof.
  rewrite <- contains_spec. destruct (contains needle hay); split; done.
Qed.

(** C3. When the content contains the two-byte sequence CR LF somewhere
    the detector answers CRLF; otherwise, when it contains an LF byte, it
    answers LF; otherwise it answers None. *)
Theorem detect_newline_spec (original_content : text) :
  (occurs_in s_CRLF original_content ->
     detect_newline original_content = CRLF)
  /\ (~ occurs_in s_CRLF original_content ->
      occurs_in s_LF original_content ->
     detect_newline original_content = LF)
  /\ (~ occurs_in s_CRLF original_content ->
      ~ occurs_in s_LF original_content ->
     detect_newline original_content = NoStyle).
Proof.
  unfold detect_newline. repeat split.
  - intros H. apply contains_spec in H. by rewrite H.
  - intros H1 H2. apply contains_false_spec in H1. apply contains_spec in H2.
    by rewrite H1, H2.
  - intros H1 H2. apply contains_false_spec in H1, H2. by rewrite H1, H2.
Qed.

Lemma detect_newline_spec_witness :
  detect_newline (T "a" ++ s_CRLF ++ T "b") = CRLF
  /\ detect_newline (T "a" ++ s_LF ++ T "b") = LF
  /\ detect_newline (T "ab") = NoStyle.
Proof.
  split; [|split].
  - apply (detect_newline_spec (T "a" ++ s_CRLF ++ T "b")).
    exists (T "a"), (T "b"). reflexivity.
  - apply (detect_newline_spec (T "a" ++ s_LF ++ T "b")).
    + apply contains_false_spec. vm_compute. reflexivity.
    + exists (T "a"), (T "b"). reflexivity.
  - apply (detect_newline_spec (T "ab")).
    + apply contains_false_spec. vm_compute. reflexivity.
    + apply contains_false_spec. vm_compute. reflexivity.
Defined.

(** ** The materializer *)

Section Materializer.

Variable os_linesep : text.

Lemma write_translate_end (newline : LineEndingStyle) :
  write_translate os_linesep newline s_LF = writenl os_linesep newline.
Proof.
  unfold write_translate, text_eqb. case_bool_decide as E.
  - by rewrite E.
  - simpl. apply app_nil_r.
Qed.

Lemma print_line_end (newline : LineEndingStyle) (line : text) :
  print_line os_linesep newline line
  = write_translate os_linesep newline line ++ writenl os_linesep newline.
Proof. unfold print_line. by rewrite write_translate_end. Qed.

Lemma written_content_app (newline : LineEndingStyle) (xs ys : list text) :
  written_content os_linesep newline (xs ++ ys)
  = written_content os_linesep newline xs ++ written_content os_linesep newline ys.
Proof. unfold written_content. by rewrite map_app, concat_app. Qed.

(** Text without LF goes to the file as it is. *)
Lemma write_translate_no_LF (newline : LineEndingStyle) (s : text) :
  Forall (fun c => c <> chr_LF) s ->
  write_translate os_linesep newline s = s.
Proof.
  intros Hs. unfold write_translate. destruct (text_eqb _ _); [done|].
  induction Hs as [|c s Hc _ IH]; [done|]. simpl.
  apply Ascii.eqb_neq in Hc. by rewrite Hc, IH.
Qed.

(** A file of at least one line ends with the line ending in use. *)
Lemma written_content_last (newline : LineEndingStyle) (new_content : list text) :
  new_content <> [] ->
  exists body, written_content os_linesep newline new_content
               = body ++ writenl os_linesep newline.
Proof.
  intros Hne. destruct (exists_last Hne) as [init [last ->]].
  exists (written_content os_linesep newline init
          ++ write_translate os_linesep newline last).
  rewrite written_content_app. unfold written_content at 2. simpl.
  rewrite print_line_end, app_nil_r. by rewrite app_assoc.
Qed.

End Materializer.





(** ** Path resolution *)

(** Stripping with the set ['b/'] takes every leading [b] and [/]. *)
Lemma lstrip_b_slash_prefix (rest : text) :
  lstrip (Some (T "b/")) (T "b/" ++ rest) = lstrip (Some (T "b/")) rest.
Proof. reflexivity. Qed.

(** It removes exactly the prefix when what follows starts with neither. *)
Lemma lstrip_b_slash_exact (c : ascii) (rest : text) :
  c <> "b"%char -> c <> "/"%char ->
  lstrip (Some (T "b/")) (T "b/" ++ c :: rest) = c :: rest.
Proof.
  intros Hb Hs. apply Ascii.eqb_neq in Hb, Hs.
  unfold lstrip. simpl. by rewrite Hb, Hs.
Qed.

(** C2. What path resolution does to three header paths: after the prefix
    [b/] the leading [b] of the file name is taken as well, the prefix
    [a/] of an old path stays, and a path without prefix loses its
    leading [b]. *)
Theorem resolve_path_lstrip_examples :
  resolve_path (T "repo") (T "b/bar.txt") = T "repo/ar.txt"
  /\ resolve_path (T "repo") (T "a/foo.txt") = T "repo/a/foo.txt"
  /\ resolve_path (T "repo") (T "bin/run.sh") = T "repo/in/run.sh".
Proof. repeat split. Qed.

(** ** Splitting the original file *)

(** C8. What the hunk applier is given for three existing files: a file
    of one line without line ending loses the blanks around the line (the
    style is None and [strip(None)] strips whitespace); in a CR LF file a
    CR before the line ending is taken with it; a file whose only line
    break is a lone CR is split there. *)
Theorem split_content_strip_examples :
  split_content_of (detect_newline (T "  x  ")) (T "  x  ") = [T "x"]
  /\ split_content_of (detect_newline (T "a" ++ [chr_CR] ++ s_CRLF))
       (T "a" ++ [chr_CR] ++ s_CRLF) = [T "a"]
  /\ split_content_of (detect_newline (T "a" ++ [chr_CR] ++ T "b"))
       (T "a" ++ [chr_CR] ++ T "b") = [T "a"; T "b"].
Proof. repeat split. Qed.

(** ** The loop of apply_patch *)

Section ApplyPatchProperties.

Context {Store : Type} `{FileSystem Store}.
Variable os_linesep : text.
Variable decode : text -> result text.
Variable parse_patch : text -> list diff.
Variable apply_diff : diff -> list text -> result (list text).
Variable repo_dir : text.

Abbreviation section := (apply_section os_linesep decode apply_diff repo_dir).
Abbreviation patch_loop :=
  (for_each (apply_section os_linesep decode apply_diff repo_dir)).

Lemma for_each_app {A} (body : A -> M Store unit) (xs ys : list A) (w : world Store) :
  for_each body (xs ++ ys) w
  = match for_each body xs w with
    | (inl e, w') => (inl e, w')
    | (inr _, w') => for_each body ys w'
    end.
Proof.
  revert w. induction xs as [|x xs IH]; intros w; [done|].
  simpl. unfold bindM. destruct (body x w) as [[e|[]] w']; [done|].
  apply IH.
Qed.

(** A section without a usable new path prints the warning and does
    nothing else. *)
Lemma apply_section_skip (d : diff) (w : world Store) :
  truthy (new_path (diff_header d)) = false ->
  section d w = (inr tt, World (files w) (stdout w ++ [warning_message])).
Proof.
  intros Hnp. unfold apply_section.
  destruct (new_path (diff_header d)) as [np|]; [|done].
  by rewrite Hnp.
Qed.

(** Reading the original file changes nothing and does not depend on
    what has been printed. *)
Lemma read_original_pure (old : option text) (fs : Store) (out : list text) :
  read_original decode old (World fs out)
  = (fst (read_original decode old (World fs [])), World fs out).
Proof.
  unfold read_original. destruct old as [p|]; [|done].
  destruct (truthy (Some p)); [|done].
  unfold bindM, read_file, lift, ret. simpl.
  destruct (fs_read fs p) as [e|raw]; [done|].
  destruct (decode raw); done.
Qed.

(** Writing a file does not look at what has been printed and prints
    nothing. *)
Lemma write_file_pure (path content : text) (fs : Store) (out : list text) :
  write_file path content (World fs out)
  = (fst (write_file path content (World fs [])),
     World (files (snd (write_file path content (World fs [])))) out).
Proof.
  unfold write_file. simpl. destruct (fs_open_w fs path) as [e|opened]; [done|].
  by destruct (fs_write opened path content).
Qed.

(** The three ways a section can go once its new path is known: its
    exception comes before the write, or the write is made. *)
Lemma apply_section_cases (d : diff) (np : text) (fs : Store) (out : list text) :
  new_path (diff_header d) = Some np ->
  truthy (Some np) = true ->
  (exists e, section d (World fs out) = (inl e, World fs out))
  \/ (exists newline new_content,
        section d (World fs out)
        = write_file (resolve_new_path repo_dir np)
            (written_content os_linesep newline new_content) (World fs out)).
Proof.
  intros Hnew Hnp. unfold apply_section. rewrite Hnew, Hnp.
  unfold bindM. rewrite read_original_pure.
  destruct (fst (read_original _ _ _)) as [e0|orig]; [left; by exists e0|].
  unfold lift. destruct (apply_diff d _) as [e1|new_content];
    [left; by exists e1|].
  right. by exists orig.1, new_content.
Qed.

(** A section that raises has printed nothing, and has changed the
    files only when it raised after opening its new file: they are then
    what the failed write left. *)
Lemma apply_section_raise (d : diff) (w w' : world Store) (e : exn) :
  section d w = (inl e, w') ->
  stdout w' = stdout w
  /\ (files w' = files w
      \/ exists np opened content,
           new_path (diff_header d) = Some np
           /\ fs_open_w (files w) (resolve_new_path repo_dir np) = inr opened
           /\ fs_write opened (resolve_new_path repo_dir np) content
              = (inl e, files w')).
Proof.
  destruct w as [fs out].
  destruct (new_path (diff_header d)) as [np|] eqn:Hnew;
    [|unfold apply_section; rewrite Hnew; discriminate].
  destruct (truthy (Some np)) eqn:Hnp;
    [|unfold apply_section; rewrite Hnew, Hnp; discriminate].
  destruct (apply_section_cases d np fs out Hnew Hnp)
    as [[e0 ->]|(newline & new_content & ->)].
  - injection 1 as <- <-. split; [done | by left].
  - unfold write_file. simpl.
    destruct (fs_open_w fs _) as [e1|opened] eqn:Hopen.
    + injection 1 as <- <-. split; [done | by left].
    + destruct (fs_write opened _ _) as [r fs'] eqn:Hwrite.
      injection 1 as -> <-. split; [done|]. right.
      by exists np, opened, (written_content os_linesep newline new_content).
Qed.

(** What has been printed has no influence on a section. *)
Lemma apply_section_stdout (d : diff) (fs : Store) (out : list text) :
  section d (World fs out)
  = let (r, w') := section d (World fs []) in
    (r, World (files w') (out ++ stdout w')).
Proof.
  destruct (new_path (diff_header d)) as [np|] eqn:Hnew;
    [|unfold apply_section; by rewrite Hnew].
  destruct (truthy (Some np)) eqn:Hnp;
    [|unfold apply_section; by rewrite Hnew, Hnp].
  unfold apply_section. rewrite Hnew, Hnp. unfold bindM.
  rewrite (read_original_pure _ fs out), (read_original_pure _ fs []).
  destruct (fst (read_original _ _ _)) as [e0|orig]; simpl.
  { by rewrite app_nil_r. }
  unfold lift. destruct (apply_diff d _) as [e1|new_content]; simpl.
  { by rewrite app_nil_r. }
  unfold write_new_content. rewrite (write_file_pure _ _ fs out).
  destruct (write_file _ _ (World fs [])) as [r [fs' out']] eqn:Hw.
  rewrite (write_file_pure _ _ fs []) in Hw. injection Hw as _ _ <-.
  simpl. by rewrite app_nil_r.
Qed.

Lemma patch_loop_stdout (ds : list diff) (fs : Store) (out : list text) :
  patch_loop ds (World fs out)
  = let (r, w') := patch_loop ds (World fs []) in
    (r, World (files w') (out ++ stdout w')).
Proof.
  revert fs out. induction ds as [|d ds IH]; intros fs out; simpl.
  - unfold ret. by rewrite app_nil_r.
  - unfold bindM. rewrite (apply_section_stdout d fs out).
    destruct (section d (World fs [])) as [[e|[]] [fs1 out1]]; simpl; [done|].
    rewrite (IH fs1 (out ++ out1)), (IH fs1 out1).
    destruct (patch_loop ds (World fs1 [])) as [r [fs2 out2]]; simpl.
    by rewrite app_assoc.
Qed.

Lemma apply_patch_run (patch : text) (w : world Store) :
  apply_patch os_linesep decode parse_patch apply_diff repo_dir patch w
  = match patch_loop (parse_patch patch) w with
    | (inl e, w') => (inl e, w')
    | (inr _, w') => (inr tt, World (files w') (stdout w' ++ [success_message]))
    end.
Proof. reflexivity. Qed.




(** C9, as the program has it. When a section raises, apply_patch stops
    there: the exception reaches the caller, no later section is run
    (the outcome is that of the failing section, whatever follows it) and
    the success message is not printed.  The files are as the earlier
    sections left them, unless the section raised after it had opened its
    new file: that file then holds what the failed write left. *)
Theorem failure_aborts_patch (patch : text) (pre post : list diff) (d : diff)
    (w w1 w2 : world Store) (e : exn) :
  parse_patch patch = pre ++ d :: post ->
  patch_loop pre w = (inr tt, w1) ->
  section d w1 = (inl e, w2) ->
  apply_patch os_linesep decode parse_patch apply_diff repo_dir patch w
  = (inl e, w2)
  /\ stdout w2 = stdout w1
  /\ (files w2 = files w1
      \/ exists np opened content,
           new_path (diff_header d) = Some np
           /\ fs_open_w (files w1) (resolve_new_path repo_dir np) = inr opened
           /\ fs_write opened (resolve_new_path repo_dir np) content
              = (inl e, files w2)).
Proof.
  intros Hp Hpre Hd. split.
  - rewrite apply_patch_run, Hp, for_each_app, Hpre.
    simpl for_each. unfold bindM. by rewrite Hd.
  - by apply (apply_section_raise d w1 w2 e).
Qed.


End ApplyPatchProperties.

(** ** The hunk applier on added lines *)



(** ** Runs of apply_patch on concrete patches *)


Lemma failure_aborts_patch_witness :
  apply_patch s_LF ascii_decode OnDisk.parse Hunks.apply_diff Scenario.repo
    (T "append+create+append") (World (OnDisk.repo_a 6) [])
  = (inl (OSError (T "repo/newfile.txt")),
     World (Disk {[ T "repo" ]}
              (<[T "repo/newfile.txt" := T "hello" ++ s_LF]>
                 (<[T "repo/a.txt" := T "x" ++ s_LF ++ T "z" ++ s_LF]>
                    {[ T "repo/a.txt" := T "x" ++ s_LF ]}))
              6) []).
Proof.
  apply (failure_aborts_patch s_LF ascii_decode OnDisk.parse Hunks.apply_diff
           Scenario.repo (T "append+create+append")
           [OnDisk.d_append] [OnDisk.d_append] Scenario.d_create
           (World (OnDisk.repo_a 6) [])
           (World (Disk {[ T "repo" ]}
                     (<[T "repo/a.txt" := T "x" ++ s_LF ++ T "z" ++ s_LF]>
                        {[ T "repo/a.txt" := T "x" ++ s_LF ]}) 6) [])).
  - reflexivity.
  - reflexivity.
  - reflexivity.
Defined.

(** C9 as stated fails: the first section of the patch raises (its
    context line is not in the file, or its old file does not exist), and
    the creation of [newfile.txt] in the second section, which succeeds
    on its own, is not attempted. *)
Lemma later_section_not_attempted :
  apply_patch s_LF ascii_decode Scenario.parse Hunks.apply_diff Scenario.repo
    (T "mismatch+create") (World Scenario.fs_a [])
  = (inl MalformedHunkError, World Scenario.fs_a [])
  /\ apply_patch s_LF ascii_decode Scenario.parse Hunks.apply_diff Scenario.repo
       (T "missing+create") (World Scenario.fs_a [])
     = (inl (FileNotFoundError (T "repo/gone.txt")), World Scenario.fs_a [])
  /\ Scenario.fs_a !! T "repo/newfile.txt" = None
  /\ files (snd (apply_patch s_LF ascii_decode Scenario.parse Hunks.apply_diff
                   Scenario.repo (T "create") (World Scenario.fs_a [])))
       !! T "repo/newfile.txt" = Some Scenario.hello_world.
Proof. repeat split. Qed.


(** ** Files of clean lines: reading, splitting and writing back *)

Lemma readlines_lf_line (l rest : text) :
  Forall (fun c => c <> chr_LF) l ->
  readlines_lf (l ++ chr_LF :: rest) = (l ++ [chr_LF]) :: readlines_lf rest.
Proof.
  induction 1 as [|c l Hc _ IH]; [done|].
  apply Ascii.eqb_neq in Hc. simpl. by rewrite Hc, IH.
Qed.

Lemma readlines_crlf_line (l rest : text) :
  Forall (fun c => c <> chr_LF) l ->
  readlines_crlf (l ++ chr_CR :: chr_LF :: rest)
  = (l ++ s_CRLF) :: readlines_crlf rest.
Proof.
  induction 1 as [|c l Hc Hl IH]; [done|].
  cbn [app readlines_crlf]. rewrite IH.
  destruct l as [|d l]; cbn [app].
  - destruct (Ascii.eqb c chr_CR); done.
  - apply Forall_cons in Hl as [Hd _]. apply Ascii.eqb_neq in Hd.
    by rewrite Hd, andb_false_r.
Qed.

Lemma dropwhile_all (p : ascii -> bool) (s t : text) :
  Forall (fun c => p c = true) s -> dropwhile p (s ++ t) = dropwhile p t.
Proof. induction 1 as [|c s Hc _ IH]; [done|]. simpl. by rewrite Hc. Qed.

Lemma dropwhile_none (p : ascii -> bool) (s t : text) :
  s <> [] -> Forall (fun c => p c = false) s -> dropwhile p (s ++ t) = s ++ t.
Proof. intros Hne Hs. destruct Hs as [|c s Hc _]; [done|]. simpl. by rewrite Hc. Qed.

(** A line none of whose characters is in [chars], followed by characters
    of [chars] only, is stripped to the line. *)
Lemma strip_line (chars : text) (l e : text) :
  Forall (fun c => in_chars chars c = false) l ->
  Forall (fun c => in_chars chars c = true) e ->
  strip (Some chars) (l ++ e) = l.
Proof.
  intros Hl He. unfold strip, rstrip, lstrip. simpl.
  destruct (decide (l = [])) as [->|Hne].
  - simpl. rewrite <- (app_nil_r e), dropwhile_all by done. done.
  - rewrite dropwhile_none by done.
    rewrite rev_app_distr, dropwhile_all by by apply Forall_rev.
    assert (rev l <> []) as Hrev.
    { intros Hr. apply Hne. by rewrite <- (rev_involutive l), Hr. }
    rewrite <- (app_nil_r (rev l)), dropwhile_none, app_nil_r;
      [apply rev_involutive | done | by apply Forall_rev].
Qed.

Lemma clean_no_LF (l : text) : clean l -> Forall (fun c => c <> chr_LF) l.
Proof. unfold clean. intros H. eapply Forall_impl; [exact H|]. by intros c [_ Hc]. Qed.

Lemma clean_not_in_chars (newline : LineEndingStyle) (l : text) :
  clean l ->
  Forall (fun c => in_chars (line_ending newline) c = false) l.
Proof.
  unfold clean. intros H. eapply Forall_impl; [exact H|]. intros c [Hcr Hlf].
  apply Ascii.eqb_neq in Hcr, Hlf.
  destruct newline; unfold in_chars; simpl; by rewrite ?Hcr, ?Hlf.
Qed.

Lemma line_ending_in_chars (newline : LineEndingStyle) :
  Forall (fun c => in_chars (line_ending newline) c = true) (line_ending newline).
Proof. destruct newline; repeat constructor. Qed.

(** Reading a file of clean lines with the style of its line ending gives
    the lines with their endings. *)
Lemma readlines_join (newline : LineEndingStyle) (ls : list text) :
  newline <> NoStyle -> Forall clean ls ->
  readlines newline (join_lines (line_ending newline) ls)
  = map (fun l => l ++ line_ending newline) ls.
Proof.
  intros Hstyle Hls. unfold join_lines.
  induction Hls as [|l ls Hl _ IH]; [by destruct newline|].
  apply clean_no_LF in Hl. destruct newline; [| |done]; simpl in *.
  - rewrite <- app_assoc. simpl. by rewrite readlines_crlf_line, IH.
  - rewrite <- app_assoc. simpl. by rewrite readlines_lf_line, IH.
Qed.

(** ... and the hunk applier is given exactly the lines. *)
Lemma split_content_join (newline : LineEndingStyle) (ls : list text) :
  newline <> NoStyle -> Forall clean ls ->
  split_content_of newline (join_lines (line_ending newline) ls) = ls.
Proof.
  intros Hstyle Hls. unfold split_content_of. rewrite readlines_join by done.
  rewrite map_map. rewrite <- (map_id ls) at 2. apply map_ext_Forall.
  eapply Forall_impl; [exact Hls|]. intros l Hl. simpl.
  assert (newline_value newline = Some (line_ending newline)) as ->
    by by destruct newline.
  apply strip_line; [by apply clean_not_in_chars | apply line_ending_in_chars].
Qed.

Lemma join_lines_no_CR (ls : list text) :
  Forall clean ls -> Forall (fun c => c <> chr_CR) (join_lines s_LF ls).
Proof.
  unfold join_lines. induction 1 as [|l ls Hl _ IH]; [constructor|].
  simpl. rewrite <- app_assoc. apply Forall_app. split.
  - eapply Forall_impl; [exact Hl|]. by intros c [Hc _].
  - by constructor.
Qed.

(** The detector finds the line ending of a file of clean lines. *)
Lemma detect_join (newline : LineEndingStyle) (ls : list text) :
  newline <> NoStyle -> ls <> [] -> Forall clean ls ->
  detect_newline (join_lines (line_ending newline) ls) = newline.
Proof.
  intros Hstyle Hne Hls. destruct ls as [|l ls]; [done|].
  destruct newline; [| |done].
  - apply detect_newline_spec.
    exists l, (join_lines s_CRLF ls). unfold join_lines. simpl.
    by rewrite <- app_assoc.
  - apply detect_newline_spec.
    + intros [pre [post Hocc]].
      pose proof (join_lines_no_CR (l :: ls) Hls) as Hcr.
      change (line_ending LF) with s_LF in Hocc. rewrite Hocc in Hcr.
      apply Forall_app in Hcr as [_ Hcr]. by apply Forall_cons in Hcr as [Hcr _].
    + exists l, (join_lines s_LF ls). unfold join_lines. simpl.
      by rewrite <- app_assoc.
Qed.

(** Clean lines are written back with the line ending of the style. *)
Lemma written_join (os_linesep : text) (newline : LineEndingStyle) (ls : list text) :
  newline <> NoStyle -> Forall clean ls ->
  written_content os_linesep newline ls = join_lines (line_ending newline) ls.
Proof.
  intros Hstyle Hls. unfold written_content, join_lines. f_equal.
  apply map_ext_Forall. eapply Forall_impl; [exact Hls|]. intros l Hl. simpl.
  rewrite print_line_end, write_translate_no_LF by by apply clean_no_LF.
  by destruct newline.
Qed.

(** The materializer with LF never writes a file that ends without it. *)
Lemma written_content_not_unterminated (os_linesep : text) (new_content : list text) :
  written_content os_linesep LF new_content <> T "b".
Proof.
  destruct new_content as [|l ls]; [discriminate|].
  destruct (written_content_last os_linesep LF (l :: ls)) as [body ->]; [done|].
  destruct body as [|c [|c' body]]; discriminate.
Qed.

(** ** Files as lines: what the hunk applier is given *)









Lemma map_lines_of {A} (f : text -> A) (ls : list text) (tail : text) :
  lines_of ls tail = ls ++ lines_of [] tail.
Proof. reflexivity. Qed.






(** ** The hunk applier on a unified diff *)





(** ** Round trip *)

Section RoundTrip.

Context {Store : Type} `{FileSystem Store}.
Variable os_linesep : text.
Variable decode : text -> result text.
Variable repo_dir : text.



End RoundTrip.



(** ** load_resolver_output *)

Section LoadProperties.

Context {Store : Type} `{FileSystem Store}.
Variable ResolverOutput : Type.
Variable model_validate : json -> result ResolverOutput.
Variable json_loads : text -> result json.



End LoadProperties.




(** * Further properties *)

(** ** Resolved paths *)

Lemma lstrip_b_slash_no_slash (path : text) :
  startswith (T "/") (lstrip (Some (T "b/")) path) = false.
Proof.
  unfold lstrip. induction path as [|c path IH]; [done|].
  cbn [dropwhile]. destruct (strip_pred (Some (T "b/")) c) eqn:Hc; [done|].
  simpl in Hc. apply orb_false_elim in Hc as [_ Hc].
  apply orb_false_elim in Hc as [Hc _].
  change (startswith (T "/") (c :: path))
    with (Ascii.eqb "/" c && startswith [] path).
  by rewrite Ascii.eqb_sym, Hc.
Qed.

(** X1. The path a header names is written after [repo_dir]: the
    leading [b] and [/] characters are stripped, so [os.path.join] never
    drops [repo_dir], and the resolved path is [repo_dir], a [/] unless
    [repo_dir] is empty or ends with one, and the stripped path.  The
    components of the path are kept as they are, [..] included: the
    resolved path of [../../etc/passwd] names a file outside [repo]. *)
Theorem resolve_path_appends_to_repo_dir (repo_dir path : text) :
  resolve_path repo_dir path
  = repo_dir
    ++ (if negb (truthy (Some repo_dir)) || endswith (T "/") repo_dir
        then [] else T "/")
    ++ lstrip (Some (T "b/")) path
  /\ resolve_path (T "repo") (T "../../etc/passwd") = T "repo/../../etc/passwd"
  /\ resolve_path (T "repo") (T "/etc/passwd") = T "repo/etc/passwd".
Proof.
  split; [|by split].
  unfold resolve_path, os_path_join. rewrite lstrip_b_slash_no_slash.
  by destruct (_ || _).
Qed.

(** ** CR LF files stay CR LF *)

Lemma flat_map_LF_after_CR (s pre post : text) :
  flat_map (fun c => if Ascii.eqb c chr_LF then s_CRLF else [c]) s
  = pre ++ chr_LF :: post ->
  exists pre', pre = pre' ++ [chr_CR].
Proof.
  revert pre. induction s as [|c s IH]; intros pre Heq.
  - by destruct pre.
  - cbn [flat_map] in Heq. destruct (Ascii.eqb c chr_LF) eqn:Hc.
    + destruct pre as [|x [|y pre]]; simpl in Heq.
      * discriminate.
      * injection Heq as Hx _. subst x. by exists [].
      * injection Heq as Hx Hy Heq. subst x y. apply IH in Heq as [pre' ->].
        by exists (chr_CR :: chr_LF :: pre').
    + destruct pre as [|x pre]; simpl in Heq.
      * injection Heq as Hx _. subst c. by rewrite Ascii.eqb_refl in Hc.
      * injection Heq as Hx Heq. subst x. apply IH in Heq as [pre' ->].
        by exists (c :: pre').
Qed.

Lemma written_content_CRLF (os_linesep : text) (new_content : list text) :
  written_content os_linesep CRLF new_content
  = flat_map (fun c => if Ascii.eqb c chr_LF then s_CRLF else [c])
      (join_lines s_LF new_content).
Proof.
  unfold written_content, join_lines.
  induction new_content as [|l ls IH]; [done|].
  cbn [map concat]. rewrite IH, flat_map_app. f_equal.
  unfold print_line, write_translate. simpl. by rewrite flat_map_app.
Qed.

(** X2. In a file written with the CR LF style every LF comes right after a
    CR, whatever the lines hold, and the file, when it has a line, is
    found to be a CR LF file again. *)
Theorem crlf_written_throughout (os_linesep : text) (new_content : list text) :
  (forall pre post,
      written_content os_linesep CRLF new_content = pre ++ chr_LF :: post ->
      exists pre', pre = pre' ++ [chr_CR])
  /\ (new_content <> [] ->
      detect_newline (written_content os_linesep CRLF new_content) = CRLF).
Proof.
  split.
  - intros pre post Heq. rewrite written_content_CRLF in Heq.
    by apply flat_map_LF_after_CR in Heq.
  - intros Hne.
    destruct (written_content_last os_linesep CRLF new_content Hne) as [body ->].
    unfold detect_newline.
    assert (contains s_CRLF (body ++ writenl os_linesep CRLF) = true) as ->; [|done].
    apply contains_spec. exists body, []. by rewrite app_nil_r.
Qed.

Lemma crlf_written_throughout_witness :
  (exists pre', T "a" ++ [chr_CR] = pre' ++ [chr_CR])
  /\ detect_newline (written_content s_LF CRLF [T "a"; T "b"]) = CRLF.
Proof.
  split.
  - apply (proj1 (crlf_written_throughout s_LF [T "a"; T "b"])
             (T "a" ++ [chr_CR]) (T "b" ++ s_CRLF)).
    reflexivity.
  - apply (proj2 (crlf_written_throughout s_LF [T "a"; T "b"])). discriminate.
Defined.

(** ** What apply_patch leaves alone *)

Section Frame.

Variable os_linesep : text.
Variable decode : text -> result text.
Variable parse_patch : text -> list diff.
Variable apply_diff : diff -> list text -> result (list text).
Variable repo_dir : text.

Abbreviation map_section :=
  (apply_section (Store := gmap text text) os_linesep decode apply_diff repo_dir).

(** The files after a section: those before, or those before with the
    resolved new path written. *)
Lemma apply_section_files (d : diff) (w : world (gmap text text)) :
  files (snd (map_section d w)) = files w
  \/ exists np content,
       new_path (diff_header d) = Some np
       /\ files (snd (map_section d w))
          = <[resolve_new_path repo_dir np := content]> (files w).
Proof.
  unfold apply_section.
  destruct (new_path (diff_header d)) as [np|]; [|by left].
  destruct (truthy (Some np)); [|by left].
  destruct w as [fs out]. unfold bindM. rewrite read_original_pure.
  destruct (fst (read_original _ _ _)) as [e0|orig]; [by left|].
  unfold lift. destruct (apply_diff d _) as [e1|new_content]; [by left|].
  right. exists np, (written_content os_linesep orig.1 new_content).
  split; [done|]. simpl. apply insert_insert_eq.
Qed.

Lemma apply_section_kept (d : diff) (w : world (gmap text text)) (q : text) :
  is_Some (files w !! q) -> is_Some (files (snd (map_section d w)) !! q).
Proof.
  intros Hq. destruct (apply_section_files d w) as [->|(np & content & _ & ->)];
    [done|].
  apply lookup_insert_is_Some'. by right.
Qed.

Lemma apply_section_other (d : diff) (w : world (gmap text text)) (q : text) :
  (forall np, new_path (diff_header d) = Some np ->
              q <> resolve_new_path repo_dir np) ->
  files (snd (map_section d w)) !! q = files w !! q.
Proof.
  intros Hq. destruct (apply_section_files d w) as [->|(np & content & Hnp & ->)];
    [done|].
  apply lookup_insert_ne. intros Heq. by apply (Hq np).
Qed.

Lemma patch_loop_kept (ds : list diff) (w : world (gmap text text)) (q : text) :
  is_Some (files w !! q) ->
  is_Some (files (snd (for_each map_section ds w)) !! q).
Proof.
  revert w. induction ds as [|d ds IH]; intros w Hq; [done|].
  simpl. unfold bindM.
  pose proof (apply_section_kept d w q Hq) as Hd.
  destruct (map_section d w) as [[e|[]] w1]; [done|]. by apply IH.
Qed.

Lemma patch_loop_other (ds : list diff) (w : world (gmap text text)) (q : text) :
  (forall d np, In d ds -> new_path (diff_header d) = Some np ->
                q <> resolve_new_path repo_dir np) ->
  files (snd (for_each map_section ds w)) !! q = files w !! q.
Proof.
  revert w. induction ds as [|d ds IH]; intros w Hq; [done|].
  simpl. unfold bindM.
  pose proof (apply_section_other d w q (fun np => Hq d np (or_introl eq_refl)))
    as Hd.
  destruct (map_section d w) as [[e|[]] w1]; [done|].
  simpl in Hd. rewrite <- Hd. apply IH.
  intros d' np Hin. apply Hq. by right.
Qed.

(** X4. On a flat store apply_patch removes no file, and a path that is not
    the resolved new path of a section holds after the run, complete or
    aborted, what it held before. *)
Theorem apply_patch_frame (patch : text) (w : world (gmap text text)) (q : text) :
  (is_Some (files w !! q) ->
   is_Some (files (snd (apply_patch os_linesep decode parse_patch apply_diff
                          repo_dir patch w)) !! q))
  /\ ((forall d np, In d (parse_patch patch) ->
                    new_path (diff_header d) = Some np ->
                    q <> resolve_new_path repo_dir np) ->
      files (snd (apply_patch os_linesep decode parse_patch apply_diff
                    repo_dir patch w)) !! q
      = files w !! q).
Proof.
  rewrite apply_patch_run. split.
  - intros Hq. pose proof (patch_loop_kept (parse_patch patch) w q Hq) as Hk.
    by destruct (for_each _ _ w) as [[e|[]] w1].
  - intros Hq. pose proof (patch_loop_other (parse_patch patch) w q Hq) as Hk.
    by destruct (for_each _ _ w) as [[e|[]] w1].
Qed.

End Frame.

Lemma apply_patch_frame_witness :
  is_Some (files (snd (apply_patch s_LF ascii_decode Scenario.parse
                         Hunks.apply_diff Scenario.repo (T "create")
                         (World Scenario.fs_a [])))
             !! T "repo/a.txt")
  /\ files (snd (apply_patch s_LF ascii_decode Scenario.parse Hunks.apply_diff
                   Scenario.repo (T "create") (World Scenario.fs_a [])))
       !! T "repo/a.txt"
     = Some (T "x" ++ s_LF).
Proof.
  split.
  - apply (proj1 (apply_patch_frame s_LF ascii_decode Scenario.parse
                    Hunks.apply_diff Scenario.repo (T "create")
                    (World Scenario.fs_a []) (T "repo/a.txt"))).
    vm_compute. eauto.
  - etrans.
    + apply (proj2 (apply_patch_frame s_LF ascii_decode Scenario.parse
                      Hunks.apply_diff Scenario.repo (T "create")
                      (World Scenario.fs_a []) (T "repo/a.txt"))).
      intros d np [<-|[]] Hnp. injection Hnp as <-. discriminate.
    + reflexivity.
Defined.

(** ** Deleted files *)

Section Deletion.

Variable os_linesep : text.
Variable decode : text -> result text.
Variable apply_diff : diff -> list text -> result (list text).
Variable repo_dir : text.

Abbreviation disk_section :=
  (apply_section (Store := disk) os_linesep decode apply_diff repo_dir).

(** X5. On a disk with directories, a section whose new path is
    [/dev/null], the mark of a deleted file, deletes nothing.  It leaves
    the directories and every file but [dev/null] below [repo_dir] as
    they were, the old file among them.  When it returns, a file
    [dev/null] below [repo_dir] exists; when the directory of that file
    does not exist, the section does not return and changes nothing. *)
Theorem deletion_section_writes_dev_null (d : diff) (w : world disk) :
  new_path (diff_header d) = Some dev_null ->
  let target := os_path_join repo_dir (T "dev/null") in
  let after := files (snd (disk_section d w)) in
  folders after = folders (files w)
  /\ (forall q, q <> target -> documents after !! q = documents (files w) !! q)
  /\ (fst (disk_section d w) = inr tt -> is_Some (documents after !! target))
  /\ (truthy (Some (dirname target)) = true ->
      dirname target ∉ folders (files w) ->
      fst (disk_section d w) <> inr tt /\ after = files w).
Proof.
  intros Hnew target after. subst after.
  assert (truthy (Some dev_null) = true) as Hnp by done.
  destruct w as [fs out].
  destruct (apply_section_cases os_linesep decode apply_diff repo_dir
              d dev_null fs out Hnew Hnp)
    as [[e ->]|(newline & new_content & ->)]; [by repeat split|].
  change (resolve_new_path repo_dir dev_null) with target.
  unfold write_file. cbn [files fs_open_w fs_write DirFS].
  case_bool_decide as Hdir; [by repeat split|].
  destruct (negb (truthy (Some (dirname target)))
            || bool_decide (dirname target ∈ folders fs)) eqn:Hparent;
    [|by repeat split].
  assert (truthy (Some (dirname target)) = true ->
          dirname target ∉ folders fs -> False) as Hmissing.
  { intros Ht Hno. rewrite Ht in Hparent.
    by rewrite bool_decide_false in Hparent. }
  destruct (Nat.leb _ _); cbn [fst snd files folders documents room];
    (split; [done|split; [|split]]).
  - intros q Hq. rewrite lookup_insert_ne by done. by rewrite lookup_insert_ne.
  - intros _. rewrite lookup_insert_eq. by eexists.
  - intros Ht Hno. by destruct (Hmissing Ht Hno).
  - intros q Hq. rewrite lookup_insert_ne by done. by rewrite lookup_insert_ne.
  - done.
  - intros Ht Hno. by destruct (Hmissing Ht Hno).
Qed.

End Deletion.

Lemma deletion_section_writes_dev_null_witness :
  (fst (apply_section s_LF ascii_decode Hunks.apply_diff Scenario.repo
          More.d_delete (World (OnDisk.repo_a 100) []))
   <> inr tt
   /\ files (snd (apply_section s_LF ascii_decode Hunks.apply_diff
                    Scenario.repo More.d_delete
                    (World (OnDisk.repo_a 100) [])))
      = OnDisk.repo_a 100)
  /\ is_Some (documents
                (files (snd (apply_section s_LF ascii_decode Hunks.apply_diff
                               Scenario.repo More.d_delete
                               (World OnDisk.repo_dev []))))
                !! T "repo/dev/null")
  /\ documents
       (files (snd (apply_section s_LF ascii_decode Hunks.apply_diff
                      Scenario.repo More.d_delete (World OnDisk.repo_dev []))))
       !! T "repo/a.txt"
     = Some (T "x" ++ s_LF).
Proof.
  pose proof (deletion_section_writes_dev_null s_LF ascii_decode Hunks.apply_diff
                Scenario.repo More.d_delete (World (OnDisk.repo_a 100) [])
                eq_refl)
    as (_ & _ & _ & Hmissing).
  pose proof (deletion_section_writes_dev_null s_LF ascii_decode Hunks.apply_diff
                Scenario.repo More.d_delete (World OnDisk.repo_dev []) eq_refl)
    as (_ & Hother & Hnull & _).
  split; [|split].
  - apply Hmissing; [reflexivity|].
    change (T "repo/dev" ∉ ({[ T "repo" ]} : gset text)).
    intros Hin. apply elem_of_singleton in Hin. discriminate Hin.
  - apply Hnull. reflexivity.
  - etrans; [apply Hother; discriminate | reflexivity].
Defined.

(** ** What apply_patch prints *)

Section Output.

Context {Store : Type} `{FileSystem Store}.
Variable os_linesep : text.
Variable decode : text -> result text.
Variable parse_patch : text -> list diff.
Variable apply_diff : diff -> list text -> result (list text).
Variable repo_dir : text.

(** Whether a section is skipped for want of a new path. *)
Abbreviation skipped :=
  (fun d : diff => negb (truthy (new_path (diff_header d)))).

Lemma apply_section_printed (d : diff) (w w' : world Store) :
  apply_section os_linesep decode apply_diff repo_dir d w = (inr tt, w') ->
  stdout w' = stdout w ++ (if skipped d then [warning_message] else []).
Proof.
  destruct (truthy (new_path (diff_header d))) eqn:Hnp.
  - destruct (new_path (diff_header d)) as [np|] eqn:Hnew; [|done].
    destruct w as [fs out]. cbn [negb].
    destruct (apply_section_cases os_linesep decode apply_diff repo_dir
                d np fs out Hnew Hnp)
      as [[e ->]|(newline & new_content & ->)]; [done|].
    rewrite write_file_pure. injection 1 as _ <-. simpl.
    destruct np; [done|]. by rewrite app_nil_r.
  - rewrite apply_section_skip by done. injection 1 as <-. simpl.
    by rewrite Hnp.
Qed.

Lemma patch_loop_printed (ds : list diff) (w w' : world Store) :
  for_each (apply_section os_linesep decode apply_diff repo_dir) ds w = (inr tt, w') ->
  stdout w'
  = stdout w ++ repeat warning_message (length (List.filter skipped ds)).
Proof.
  revert w. induction ds as [|d ds IH]; intros w.
  - injection 1 as <-. by rewrite app_nil_r.
  - cbn [for_each]. unfold bindM.
    destruct (apply_section _ _ _ _ d w) as [[e|[]] w1] eqn:Hd; [done|].
    intros Hds. apply IH in Hds. apply apply_section_printed in Hd.
    rewrite Hds, Hd, <- app_assoc. f_equal. cbn [List.filter].
    by destruct (skipped d).
Qed.

(** X6. A run of apply_patch that returns has printed one warning for each
    section without a usable new path, then the success message, and
    nothing else. *)
Theorem apply_patch_prints (patch : text) (w w' : world Store) :
  apply_patch os_linesep decode parse_patch apply_diff repo_dir patch w = (inr tt, w') ->
  stdout w'
  = stdout w
    ++ repeat warning_message (length (List.filter skipped (parse_patch patch)))
    ++ [success_message].
Proof.
  rewrite apply_patch_run.
  destruct (for_each _ _ w) as [[e|[]] w1] eqn:Hloop; [done|].
  injection 1 as <-. simpl. apply patch_loop_printed in Hloop.
  by rewrite Hloop, <- app_assoc.
Qed.

End Output.

Lemma apply_patch_prints_witness :
  stdout (snd (apply_patch s_LF ascii_decode More.parse Hunks.apply_diff Scenario.repo
                 (T "skip+create+skip") (World (∅ : gmap text text) [])))
  = [warning_message; warning_message; success_message].
Proof.
  apply (apply_patch_prints s_LF ascii_decode More.parse Hunks.apply_diff Scenario.repo
           (T "skip+create+skip") (World (∅ : gmap text text) [])).
  reflexivity.
Defined.

(** ** Lines that are no records *)

Section BadLines.

Context {Store : Type} `{FileSystem Store}.
Variable ResolverOutput : Type.
Variable model_validate : json -> result ResolverOutput.
Variable json_loads : text -> result json.


End BadLines.


(** ** The copy of the repository *)

Lemma os_path_join_relative (a b : text) :
  startswith (T "/") b = false ->
  os_path_join a b
  = a ++ (if negb (truthy (Some a)) || endswith (T "/") a then [] else T "/") ++ b.
Proof.
  intros Hb. unfold os_path_join. rewrite Hb. by destruct (_ || _).
Qed.

Lemma os_path_join_patches (x b : text) :
  startswith (T "/") b = false ->
  os_path_join (x ++ T "patches") b = x ++ T "patches/" ++ b.
Proof.
  intros Hb. rewrite os_path_join_relative by done.
  destruct (truthy _) eqn:Ht; [|by destruct x].
  unfold endswith. rewrite rev_app_distr. simpl. by rewrite <- app_assoc.
Qed.

(** The destination of the copy is never the source. *)
Lemma dest_dir_not_src_dir (output_dir : text) (issue_number : Z) :
  dest_dir_of output_dir issue_number <> src_dir_of output_dir.
Proof.
  unfold dest_dir_of, src_dir_of.
  rewrite (os_path_join_relative output_dir (T "patches")) by done.
  rewrite (os_path_join_relative output_dir (T "repo")) by done.
  rewrite (app_assoc output_dir _ (T "patches")), os_path_join_patches by done.
  rewrite <- app_assoc. intros Heq. apply app_inv_head in Heq.
  apply app_inv_head in Heq. discriminate Heq.
Qed.

(** Case analysis on the answers of the machine. *)
Ltac crack :=
  repeat (simpl;
          match goal with
          | |- context [os_path_exists ?s ?p] =>
              destruct (os_path_exists s p) eqn:?
          | |- context [shutil_rmtree ?s ?p] =>
              destruct (shutil_rmtree s p) eqn:?
          | |- context [shutil_copytree ?s ?a ?b] =>
              destruct (shutil_copytree s a b) eqn:?
          | |- context [subprocess_run ?s ?c] =>
              destruct (subprocess_run s c) as [? ?] eqn:?
          | |- context [requests_get ?s ?u ?h] =>
              destruct (requests_get s u h) as [[?|] ?] eqn:?
          | |- context [requests_post ?s ?u ?h ?d] =>
              destruct (requests_post s u h d) as [[?|] ?] eqn:?
          | |- context [Z.eqb (returncode ?c) 0] =>
              destruct (Z.eqb (returncode c) 0) eqn:?
          | |- context [Z.eqb (status_code ?r) 403] =>
              destruct (Z.eqb (status_code r) 403) eqn:?
          | |- context [raise_for_status ?r] =>
              destruct (raise_for_status r) as [?|[]] eqn:?
          | |- context [response_json ?r] =>
              destruct (response_json r) eqn:?
          | |- context [subscript ?b ?k] =>
              destruct (subscript b k) eqn:?
          end); simpl.

(** An event known to be in a list of events that is written out. *)
Ltac pick_event :=
  repeat match goal with
         | H : In _ (_ :: _) |- _ => destruct H as [H|H]
         | H : In _ [] |- _ => destruct H
         | H : _ \/ _ |- _ => destruct H as [H|H]
         | H : False |- _ => destruct H
         end; simplify_eq.

Section InitializeRepo.

Context {Sys : Type} `{System Sys}.

(** X8. Without the source directory initialize_repo raises the ValueError
    that names it; it has asked whether the directory exists and has
    removed, copied, run and printed nothing. *)
Theorem initialize_repo_missing_source (output_dir : text) (issue_number : Z)
    (base_commit : option text) (m : machine Sys) :
  os_path_exists (system m) (src_dir_of output_dir) = false ->
  initialize_repo output_dir issue_number base_commit m
  = (inl (Raised (ValueError (T "Source directory " ++ src_dir_of output_dir
                              ++ T " does not exist."))),
     Machine (system m)
       (events m ++ [EvExists (src_dir_of output_dir) false]) (printed m)).
Proof.
  intros Hsrc. unfold initialize_repo, bindP, path_exists. cbv zeta.
  by rewrite Hsrc.
Qed.

(** X9. Whatever initialize_repo runs into, the only tree it removes is the
    destination [patches/issue_N], which is not the source and which
    existed when the call began, and the only copy it makes is from the
    source to that destination. *)
Theorem initialize_repo_touches_destination_only (output_dir : text)
    (issue_number : Z) (base_commit : option text) (m : machine Sys) :
  exists new,
    events (snd (initialize_repo output_dir issue_number base_commit m))
    = events m ++ new
    /\ (forall p, In (EvRmtree p) new ->
          p = dest_dir_of output_dir issue_number
          /\ p <> src_dir_of output_dir
          /\ os_path_exists (system m) p = true)
    /\ (forall s d, In (EvCopytree s d) new ->
          s = src_dir_of output_dir /\ d = dest_dir_of output_dir issue_number).
Proof.
  pose proof (dest_dir_not_src_dir output_dir issue_number) as Hne.
  unfold initialize_repo, bindP, path_exists, rmtree, copytree, say, run,
    retP, throw.
  cbv zeta. destruct base_commit as [[|c base]|]; crack;
    rewrite <- ?app_assoc; (eexists; split; [reflexivity|]);
    (split; intros; simpl in *; pick_event; auto).
Qed.

(** X10. When initialize_repo returns, it returns the destination directory,
    it has printed that the repository was copied there, and the
    checkout of a given base commit has run with exit code 0; without a
    base commit (None or the empty string) no command has been run. *)
Theorem initialize_repo_returns (output_dir : text) (issue_number : Z)
    (base_commit : option text) (m m' : machine Sys) (dest_dir : text) :
  initialize_repo output_dir issue_number base_commit m = (inr dest_dir, m') ->
  dest_dir = dest_dir_of output_dir issue_number
  /\ printed m' = printed m ++ [T "Copied repository to " ++ dest_dir]
  /\ exists new,
       events m' = events m ++ new
       /\ In (EvCopytree (src_dir_of output_dir) dest_dir) new
       /\ match base_commit with
          | Some (c :: base) =>
              exists completed,
                In (EvRun (checkout_command dest_dir (c :: base)) completed) new
                /\ returncode completed = 0%Z
          | _ => forall cmd completed, ~ In (EvRun cmd completed) new
          end.
Proof.
  unfold initialize_repo, bindP, path_exists, rmtree, copytree, say, run,
    retP, throw.
  cbv zeta. destruct base_commit as [[|c base]|]; crack;
    intros Hrun; try discriminate Hrun;
    injection Hrun as <- <-; simpl; rewrite <- ?app_assoc;
    (split; [reflexivity|]); (split; [reflexivity|]);
    (eexists; split; [reflexivity|]); simpl;
    (split; [tauto|]);
    try (intros cmd completed Hin; simpl in Hin; pick_event; done).
  all: eexists; split;
    [simpl; repeat (first [left; reflexivity | right]) | by apply Z.eqb_eq].
Qed.

End InitializeRepo.

Lemma initialize_repo_missing_source_witness :
  initialize_repo (T "out") 7 None Script.bare
  = (inl (Raised (ValueError (T "Source directory out/repo does not exist."))),
     Machine (system Script.bare) [EvExists (T "out/repo") false] []).
Proof.
  apply (initialize_repo_missing_source (T "out") 7 None Script.bare).
  reflexivity.
Defined.

Lemma initialize_repo_returns_witness :
  T "out/patches/issue_7" = dest_dir_of (T "out") 7
  /\ printed (snd (initialize_repo (T "out") 7 (Some (T "abc"))
                     (Script.boot [0%Z] None)))
     = [] ++ [T "Copied repository to out/patches/issue_7"]
  /\ exists new,
       events (snd (initialize_repo (T "out") 7 (Some (T "abc"))
                      (Script.boot [0%Z] None)))
       = [] ++ new
       /\ In (EvCopytree (src_dir_of (T "out")) (T "out/patches/issue_7")) new
       /\ exists completed,
            In (EvRun (checkout_command (T "out/patches/issue_7") (T "abc"))
                  completed) new
            /\ returncode completed = 0%Z.
Proof.
  apply (initialize_repo_returns (T "out") 7 (Some (T "abc"))
           (Script.boot [0%Z] None)
           (snd (initialize_repo (T "out") 7 (Some (T "abc"))
                   (Script.boot [0%Z] None)))
           (T "out/patches/issue_7")).
  reflexivity.
Defined.

(** ** The commit *)

Section MakeCommit.

Context {Sys : Type} `{System Sys}.

(** X11. make_commit runs [git add .] and, only when that exits with 0,
    [git commit]; it returns when both exit with 0 and has then printed
    nothing, and raises the RuntimeError of the command that failed after
    printing its error output. *)
Theorem make_commit_outcomes (repo_dir : text) (issue : GithubIssue)
    (m : machine Sys) :
  let out := make_commit repo_dir issue m in
  (exists added,
      returncode added <> 0%Z
      /\ events (snd out) = events m ++ [EvRun (add_command repo_dir) added]
      /\ fst out = inl (RuntimeError (T "Failed to add files to git"))
      /\ printed (snd out)
         = printed m ++ [T "Error adding files: " ++ proc_stderr added])
  \/ (exists added committed,
        returncode added = 0%Z /\ returncode committed <> 0%Z
        /\ events (snd out)
           = events m ++ [EvRun (add_command repo_dir) added;
                          EvRun (commit_command repo_dir issue) committed]
        /\ fst out = inl (RuntimeError (T "Failed to commit changes"))
        /\ printed (snd out)
           = printed m ++ [T "Error committing changes: " ++ proc_stderr committed])
  \/ (exists added committed,
        returncode added = 0%Z /\ returncode committed = 0%Z
        /\ events (snd out)
           = events m ++ [EvRun (add_command repo_dir) added;
                          EvRun (commit_command repo_dir issue) committed]
        /\ fst out = inr tt
        /\ printed (snd out) = printed m).
Proof.
  unfold make_commit, bindP, say, run, retP, throw. cbv zeta. crack.
  - right. right. eexists _, _. rewrite <- app_assoc.
    repeat split; by apply Z.eqb_eq.
  - right. left. eexists _, _. rewrite <- app_assoc.
    repeat split; by first [apply Z.eqb_eq | apply Z.eqb_neq].
  - left. eexists. repeat split. by apply Z.eqb_neq.
Qed.

End MakeCommit.

(** ** The pull request *)

Lemma raise_for_status_error (response : Response) (e : error) :
  raise_for_status response = inl e -> e = HTTPError (status_code response).
Proof.
  unfold raise_for_status. destruct (_ && _); [|done]. by injection 1 as <-.
Qed.

Section SendPullRequest.

Context {Sys : Type} `{System Sys}.
Variable py_str : json -> text.

Ltac open_send :=
  unfold send_pull_request, bindP, get, post, run, say, liftP, liftE,
    arrived, retP, throw;
  cbv zeta; crack.

(** X12. send_pull_request asks for a pull request only as its fourth call:
    after the repository has answered with its default branch, and after
    the creation of the branch and the push have both exited with 0.  The
    request goes to [<base_url>/pulls] with head [fix-issue-N] and the
    default branch as base. *)
Theorem pull_request_only_after_push (github_issue : GithubIssue)
    (github_token github_username patch_dir : text) (m : machine Sys) :
  exists new,
    events (snd (send_pull_request py_str github_issue github_token
                   github_username patch_dir m))
    = events m ++ new
    /\ forall url headers data answer,
         In (EvPost url headers data answer) new ->
         exists response body default_branch branched pushed,
           new = [EvGet (base_url_of github_issue)
                    (request_headers github_token) (Some response);
                  EvRun (branch_command patch_dir (branch_name_of github_issue))
                    branched;
                  EvRun (push_command_of github_issue github_token
                           github_username patch_dir) pushed;
                  EvPost url headers data answer]
           /\ raise_for_status response = inr tt
           /\ response_json response = inr body
           /\ subscript body (T "default_branch") = inr default_branch
           /\ returncode branched = 0%Z
           /\ returncode pushed = 0%Z
           /\ url = base_url_of github_issue ++ T "/pulls"
           /\ headers = request_headers github_token
           /\ data = pr_data_of github_issue default_branch.
Proof.
  open_send; rewrite <- ?app_assoc; (eexists; split; [reflexivity|]);
    intros url headers data answer Hin; simpl in Hin; pick_event;
    eexists _, _, _, _, _; repeat split; eauto; by apply Z.eqb_eq.
Qed.

(** X13. Once the pull request has been asked for, its answer decides the
    result: no answer raises the exception of [requests], status 403 the
    RuntimeError about permissions, another client or server error an
    HTTPError, and otherwise the result is [html_url] of the answer's
    JSON, or the exception of reading it. *)
Theorem pull_request_answer_decides (github_issue : GithubIssue)
    (github_token github_username patch_dir : text) (m : machine Sys) :
  let out := send_pull_request py_str github_issue github_token
               github_username patch_dir m in
  forall url headers data answer,
    In (EvPost url headers data answer)
       (skipn (length (events m)) (events (snd out))) ->
    fst out
    = match answer with
      | None => inl RequestException
      | Some response =>
          if Z.eqb (status_code response) 403 then
            inl (RuntimeError permission_message)
          else
            match raise_for_status response with
            | inl e => inl e
            | inr _ =>
                match bindE (response_json response)
                        (fun pr_data => subscript pr_data (T "html_url")) with
                | inl e => inl (Raised e)
                | inr html_url => inr html_url
                end
            end
      end.
Proof.
  open_send; rewrite <- ?app_assoc; rewrite ?skipn_app, ?Nat.sub_diag,
    ?skipn_all, ?app_nil_l; simpl;
    intros url headers data answer Hin; pick_event; simpl;
    repeat (match goal with
            | H : ?x = _ |- context [?x] => rewrite H
            end; simpl); try done.
Qed.

(** X14. When send_pull_request fails because the push was refused, the one
    line it has printed holds the push command and with it the token. *)
Theorem push_failure_prints_token (github_issue : GithubIssue)
    (github_token github_username patch_dir : text) (m m' : machine Sys) :
  send_pull_request py_str github_issue github_token github_username patch_dir m
  = (inl (RuntimeError (T "Failed to push changes to the remote repository")),
     m') ->
  exists line,
    printed m' = printed m ++ [line] /\ occurs_in github_token line.
Proof.
  open_send; intros Heq; unfold permission_message in Heq;
    repeat match goal with
           | Hs : raise_for_status _ = inl _ |- _ =>
               apply raise_for_status_error in Hs
           end;
    simplify_eq.
  simpl. eexists. split; [reflexivity|].
  match goal with
  | |- context [proc_stderr ?c] =>
      exists (T "Error pushing changes" ++ s_LF ++ T "git -C " ++ patch_dir
              ++ T " push https://" ++ github_username ++ T ":"),
             (T "@github.com/" ++ owner github_issue ++ T "/"
              ++ repo github_issue ++ T ".git " ++ branch_name_of github_issue
              ++ s_LF ++ proc_stderr c)
  end.
  unfold push_command_of. repeat (rewrite <- app_assoc; simpl). reflexivity.
Qed.

End SendPullRequest.

Lemma pull_request_answer_decides_witness :
  fst (send_pull_request Script.show Script.issue7 (T "tok") (T "bot")
         (T "out/patches/issue_7")
         (Script.boot [0%Z; 0%Z] (Some Script.created_answer)))
  = inr (JStr (T "https://github.com/acme/widgets/pull/1")).
Proof.
  etrans.
  - apply (pull_request_answer_decides Script.show Script.issue7 (T "tok")
             (T "bot") (T "out/patches/issue_7")
             (Script.boot [0%Z; 0%Z] (Some Script.created_answer))
             (base_url_of Script.issue7 ++ T "/pulls")
             (request_headers (T "tok"))
             (pr_data_of Script.issue7 (JStr (T "main")))
             (Some Script.created_answer)).
    right. right. right. left. reflexivity.
  - reflexivity.
Defined.

Lemma push_failure_prints_token_witness :
  exists line,
    printed (snd (send_pull_request Script.show Script.issue7 (T "tok") (T "bot")
                    (T "out/patches/issue_7")
                    (Script.boot [0%Z; 1%Z] None)))
    = [] ++ [line]
    /\ occurs_in (T "tok") line.
Proof.
  apply (push_failure_prints_token Script.show Script.issue7 (T "tok") (T "bot")
           (T "out/patches/issue_7") (Script.boot [0%Z; 1%Z] None)
           (snd (send_pull_request Script.show Script.issue7 (T "tok") (T "bot")
                   (T "out/patches/issue_7") (Script.boot [0%Z; 1%Z] None)))).
  reflexivity.
Defined.

(** ** The lines given to the hunk applier *)

Lemma dropwhile_head (p : ascii -> bool) (s : text) (c : ascii) (t : text) :
  dropwhile p s = c :: t -> p c = false.
Proof.
  induction s as [|a s IH]; [done|]. simpl.
  destruct (p a) eqn:Ha; [done|]. by injection 1 as <- _.
Qed.

Lemma dropwhile_suffix (p : ascii -> bool) (s : text) :
  exists dropped, s = dropped ++ dropwhile p s.
Proof.
  induction s as [|a s [dropped IH]]; [by exists []|]. simpl.
  destruct (p a); [|by exists []]. exists (a :: dropped). by rewrite IH at 1.
Qed.

Lemma strip_ends (chars : option text) (s : text) (c : ascii) (t : text) :
  strip chars s = c :: t \/ strip chars s = t ++ [c] ->
  strip_pred chars c = false.
Proof.
  unfold strip, rstrip, lstrip.
  set (p := strip_pred chars). set (u := dropwhile p s). intros [Hs|Hs].
  - destruct (dropwhile_suffix p (rev u)) as [dropped Hu].
    apply (f_equal (@rev ascii)) in Hu.
    rewrite rev_involutive, rev_app_distr, Hs in Hu.
    by apply (dropwhile_head p s c (t ++ rev dropped)).
  - apply (f_equal (@rev ascii)) in Hs.
    rewrite rev_involutive, rev_app_distr in Hs.
    by apply (dropwhile_head p (rev u) c (rev t)).
Qed.

(** X3. No line given to the hunk applier begins or ends with a character
    that [strip(newline)] removes: LF in an LF file, CR and LF in a CR LF
    file, any white space in a file without line ending. *)
Theorem split_content_lines_stripped (newline : LineEndingStyle)
    (content l : text) (c : ascii) (t : text) :
  In l (split_content_of newline content) ->
  l = c :: t \/ l = t ++ [c] ->
  strip_pred (newline_value newline) c = false.
Proof.
  unfold split_content_of. intros Hin Hl.
  apply in_map_iff in Hin as (x & <- & _). by apply strip_ends in Hl.
Qed.

Lemma split_content_lines_stripped_witness :
  strip_pred (newline_value (detect_newline (T " x y")))  "x"%char = false.
Proof.
  apply (split_content_lines_stripped (detect_newline (T " x y")) (T " x y")
           (T "x y") "x"%char (T " y")).
  - left. reflexivity.
  - left. reflexivity.
Defined.
